(** * The streaming subscription engine of the web UI

    A shallow embedding of [webui/react/src/services/stream/stream.ts]
    (class [Stream]) and the properties of its protocol state machine.

    The class keeps its state in private mutable fields and reports to its
    owner through three callbacks and a websocket.  Here the fields are a
    record [State], every method is a function from a state to the new
    state, the list of effects it performed (callback invocations,
    [ws.send], [new WebSocket], [setTimeout]) and how it ended (normally or
    by an exception). *)

From Stdlib Require Import List String Ascii ZArith Lia Bool Arith DecimalString.
From Stdlib Require DecimalNat Finite.
Import ListNotations.
Local Open Scope string_scope.

Set Implicit Arguments.
Set Warnings "-register-all".

(** ** JavaScript values, strings and objects *)

(** [StreamContent] is [any] in the source: whatever [JSON.parse] produced,
    or [undefined] for a property that is not there.  Numbers are the
    integers (identifiers and sequence numbers are). *)
Inductive StreamContent : Type :=
| VUndefined
| VNull
| VBool (b : bool)
| VNum (n : Z)
| VStr (s : string)
| VArr (items : list StreamContent)
| VObj (fields : list (string * StreamContent)).

(** An object is the list of its own properties in enumeration order; a
    property name occurs once.  For a parsed message that is the order in
    which [forEach] visits the fields.  (The group names, which are the
    keys [obj_set] adds, are no array indices, which JavaScript would
    enumerate before the others.) *)
Definition Obj (V : Type) : Type := list (string * V).

Fixpoint obj_get {V} (o : Obj V) (k : string) : option V :=
  match o with
  | [] => None
  | (k', v) :: rest => if String.eqb k' k then Some v else obj_get rest k
  end.

(** [o[k] = v]: an existing property keeps its place, a new one goes last. *)
Fixpoint obj_set {V} (o : Obj V) (k : string) (v : V) : Obj V :=
  match o with
  | [] => [(k, v)]
  | (k', v') :: rest =>
      if String.eqb k' k then (k', v) :: rest else (k', v') :: obj_set rest k v
  end.

(** [{ ...a, ...b }] *)
Definition obj_spread {V} (a b : Obj V) : Obj V :=
  fold_left (fun acc kv => obj_set acc (fst kv) (snd kv)) b a.

Definition obj_values {V} (o : Obj V) : list V := map snd o.

(** Truthiness, as [if (v)] and [!v] test it. *)
Definition truthy (v : StreamContent) : bool :=
  match v with
  | VUndefined | VNull => false
  | VBool b => b
  | VNum n => negb (Z.eqb n 0)
  | VStr s => negb (String.eqb s "")
  | VArr _ | VObj _ => true
  end.

(** [a === b].  Arrays and objects compare by reference; the engine only
    ever compares values that come from different parsed messages (or a
    string of its own), so two of them are never the same reference. *)
Definition strict_eq (a b : StreamContent) : bool :=
  match a, b with
  | VUndefined, VUndefined => true
  | VNull, VNull => true
  | VBool x, VBool y => Bool.eqb x y
  | VNum x, VNum y => Z.eqb x y
  | VStr x, VStr y => String.eqb x y
  | _, _ => false
  end.

(** [v.name] for a name that is no built-in member ([id], [seq]): reading a
    property of [null] or [undefined] throws a TypeError ([None]). *)
Definition get_prop (v : StreamContent) (name : string) : option StreamContent :=
  match v with
  | VUndefined | VNull => None
  | VObj fields =>
      Some (match obj_get fields name with Some x => x | None => VUndefined end)
  | _ => Some VUndefined
  end.

(** [msg[name]] on a parsed message. *)
Definition msg_get (msg : Obj StreamContent) (name : string) : StreamContent :=
  match obj_get msg name with Some v => v | None => VUndefined end.

(** [Number.MAX_SAFE_INTEGER], the largest length lodash accepts. *)
Definition MAX_SAFE_INTEGER : Z := 9007199254740991.

(** lodash [isArrayLike] on a parsed object: its [length] property is a
    number that [isLength] accepts, a non-negative integer up to
    [MAX_SAFE_INTEGER].  Gives that length. *)
Definition array_like (o : Obj StreamContent) : option Z :=
  match msg_get o "length" with
  | VNum n => if ((0 <=? n) && (n <=? MAX_SAFE_INTEGER))%Z then Some n else None
  | _ => None
  end.

(** The members that an object literal inherits from [Object.prototype]:
    indexing with one of these names finds a function (or the prototype)
    where the object has no own property of the name. *)
Definition object_prototype_members : list string :=
  ["constructor"; "hasOwnProperty"; "isPrototypeOf"; "propertyIsEnumerable";
   "toLocaleString"; "toString"; "valueOf"; "__proto__";
   "__defineGetter__"; "__defineSetter__"; "__lookupGetter__"; "__lookupSetter__"].

Definition is_inherited_name (k : string) : bool :=
  existsb (String.eqb k) object_prototype_members.

(** [s.includes(sub)] *)
Fixpoint includes (sub s : string) : bool :=
  String.prefix sub s ||
  match s with
  | EmptyString => false
  | String _ s' => includes sub s'
  end.

Fixpoint mem_char (c : ascii) (chars : string) : bool :=
  match chars with
  | EmptyString => false
  | String c' rest => Ascii.eqb c c' || mem_char c rest
  end.

(** lodash [trimEnd(s, chars)]: drops from the end of [s] every character
    that occurs in [chars], up to the last character that does not. *)
Fixpoint trimEnd (s chars : string) : string :=
  match s with
  | EmptyString => EmptyString
  | String c s' =>
      match trimEnd s' chars with
      | EmptyString => if mem_char c chars then EmptyString else String c EmptyString
      | r => String c r
      end
  end.

(** [n.toString()] for a non-negative integer. *)
Definition toString (n : nat) : string := NilZero.string_of_uint (Nat.to_uint n).

(** ** What the module imports *)

(** [StreamSpec] (from the package index): an opaque description of what to
    watch in one entity-type group. *)
Class StreamSpec (Sp : Type) : Type := {
  spec_id : Sp -> string;
  equals : Sp -> Sp -> bool;
  toWire : Sp -> Obj StreamContent
}.

(** [KeyCache] and [decode_keys] (from [./keyCache]).  The cache is a
    mutable object in the source; every method that mutates it returns the
    new cache here.  [upsert] receives [val.id] and [val.seq] as the message
    has them. *)
Class KeyCacheOps (KC : Type) : Type := {
  new_KeyCache : KC;
  known : KC -> StreamContent;
  maxSeq : KC -> Z;
  upsert : list StreamContent -> StreamContent -> KC -> KC;
  delete_msg : list Z -> KC -> KC;
  decode_keys : StreamContent -> list Z
}.

(** ** State *)

Inductive ReadyState : Type := CONNECTING | OPEN | CLOSING | CLOSED.

Definition ReadyState_eqb (a b : ReadyState) : bool :=
  match a, b with
  | CONNECTING, CONNECTING | OPEN, OPEN | CLOSING, CLOSING | CLOSED, CLOSED => true
  | _, _ => false
  end.

Record Subscription (Sp : Type) : Type := {
  sub_spec : Sp;
  sub_id : option string
}.

Record SubscriptionWithCache (Sp KC : Type) : Type := {
  swc_spec : Sp;
  swc_id : option string;
  keyCache : KC
}.

Definition SubscriptionGroup (Sp : Type) : Type := Obj (Subscription Sp).

(** What the engine does to the outside. *)
Inductive Effect : Type :=
| Connect                                   (* new WebSocket(wsUrl) *)
| WsClose                                   (* ws.close() *)
| Sent (payload : StreamContent)            (* ws.send(JSON.stringify(payload)) *)
| SetTimeout (ms : Z)                       (* setTimeout(advance, ms) *)
| Upsert (msg : Obj StreamContent)          (* onUpsert(msg) *)
| Delete (group : string) (keys : list Z)   (* onDelete(group, keys) *)
| Loaded (ids : list string).               (* isLoaded(ids) *)

Inductive Exn : Type :=
| CannotReconnect       (* Error('Websocket cannot reconnect!') *)
| TypeError.

Inductive Outcome : Type :=
| Normal
| Thrown (e : Exn).

Record State (Sp KC : Type) : Type := mkState {
  ws : option ReadyState;          (* the socket, by its readyState *)
  retries : nat;
  timeout : Z;                     (* milliseconds *)
  numSyncs : nat;
  closedByClient : bool;
  subs : list (SubscriptionGroup Sp);
  curSub : option (Obj (SubscriptionWithCache Sp KC));
  syncSent : StreamContent;
  syncStarted : StreamContent;
  syncComplete : StreamContent;
  pendingMsg : list StreamContent;     (* whatever JSON.parse gave *)
  isLoaded : bool                  (* was the optional callback supplied? *)
}.

Arguments mkState {Sp KC}.

(** About 60 seconds of auto-retry. *)
Definition backoffs : list Z := [0; 1; 2; 4; 8; 10; 10; 10; 15]%Z.

(** The three parts of what a method leaves. *)
Definition state_of {A B C} (r : A * B * C) : A := fst (fst r).
Definition effects_of {A B C} (r : A * B * C) : B := snd (fst r).
Definition outcome_of {A B C} (r : A * B * C) : C := snd r.

(** ** Vocabulary of the properties *)

Definition is_sent (e : Effect) : bool :=
  match e with Sent _ => true | _ => false end.
Definition is_upsert (e : Effect) : bool :=
  match e with Upsert _ => true | _ => false end.
Definition is_delete (e : Effect) : bool :=
  match e with Delete _ _ => true | _ => false end.
Definition is_loaded (e : Effect) : bool :=
  match e with Loaded _ => true | _ => false end.

Definition count (p : Effect -> bool) (out : list Effect) : nat :=
  List.length (filter p out).

(** The name of a field carries the deleted marker. *)
Definition marked (k : string) : bool := includes "_deleted" k.

(** A catch-up marker is a message whose [sync_id] is truthy; it marks the
    start when its [complete] is falsy and the completion otherwise. *)
Definition is_marker (msg : Obj StreamContent) : bool :=
  truthy (msg_get msg "sync_id").
Definition is_start_marker (msg : Obj StreamContent) : bool :=
  is_marker msg && negb (truthy (msg_get msg "complete")).
Definition is_complete_marker (msg : Obj StreamContent) : bool :=
  is_marker msg && truthy (msg_get msg "complete").

(** The value of a field can be read as an entity: [val.id] does not throw. *)
Definition readable (v : StreamContent) : bool :=
  match v with
  | VUndefined | VNull => false
  | _ => true
  end.

(** The last character of [s] is one of [chars]. *)
Fixpoint ends_in (s chars : string) : bool :=
  match s with
  | EmptyString => false
  | String c EmptyString => mem_char c chars
  | String _ rest => ends_in rest chars
  end.

Section Engine.

Context {Sp KC : Type} {specI : StreamSpec Sp} {cacheI : KeyCacheOps KC}.

(** [StreamEntityMap] (from the package index): the table from the entity
    tag of a message field to its group.  [StreamEntityMap k] is the
    property name that [StreamEntityMap[k]] indexes the active subscription
    with: the group of the tag [k]; for a [k] that the table only inherits
    from [Object.prototype], the text of that member; and [None] where the
    lookup gives [undefined]. *)
Variable StreamEntityMap : string -> option string.

Local Abbreviation St := (State Sp KC).

(** A method leaves a state, the effects it performed, in order, and how it
    ended.  What is done before an exception stays done. *)
Definition Result : Type := St * list Effect * Outcome.

Definition ret (st : St) : Result := (st, [], Normal).

Definition andThen (r : Result) (f : St -> Result) : Result :=
  match r with
  | (st, out, Normal) =>
      match f st with (st', out', o) => (st', (out ++ out')%list, o) end
  | (_, _, Thrown _) => r
  end.

(** Field assignments. *)
Definition set_ws (v : option ReadyState) (st : St) : St :=
  mkState v (retries st) (timeout st) (numSyncs st) (closedByClient st) (subs st)
    (curSub st) (syncSent st) (syncStarted st) (syncComplete st) (pendingMsg st)
    (isLoaded st).
Definition set_retries (v : nat) (st : St) : St :=
  mkState (ws st) v (timeout st) (numSyncs st) (closedByClient st) (subs st)
    (curSub st) (syncSent st) (syncStarted st) (syncComplete st) (pendingMsg st)
    (isLoaded st).
Definition set_timeout (v : Z) (st : St) : St :=
  mkState (ws st) (retries st) v (numSyncs st) (closedByClient st) (subs st)
    (curSub st) (syncSent st) (syncStarted st) (syncComplete st) (pendingMsg st)
    (isLoaded st).
Definition set_numSyncs (v : nat) (st : St) : St :=
  mkState (ws st) (retries st) (timeout st) v (closedByClient st) (subs st)
    (curSub st) (syncSent st) (syncStarted st) (syncComplete st) (pendingMsg st)
    (isLoaded st).
Definition set_closedByClient (v : bool) (st : St) : St :=
  mkState (ws st) (retries st) (timeout st) (numSyncs st) v (subs st)
    (curSub st) (syncSent st) (syncStarted st) (syncComplete st) (pendingMsg st)
    (isLoaded st).
Definition set_subs (v : list (SubscriptionGroup Sp)) (st : St) : St :=
  mkState (ws st) (retries st) (timeout st) (numSyncs st) (closedByClient st) v
    (curSub st) (syncSent st) (syncStarted st) (syncComplete st) (pendingMsg st)
    (isLoaded st).
Definition set_curSub (v : option (Obj (SubscriptionWithCache Sp KC))) (st : St) : St :=
  mkState (ws st) (retries st) (timeout st) (numSyncs st) (closedByClient st) (subs st)
    v (syncSent st) (syncStarted st) (syncComplete st) (pendingMsg st)
    (isLoaded st).
Definition set_syncSent (v : StreamContent) (st : St) : St :=
  mkState (ws st) (retries st) (timeout st) (numSyncs st) (closedByClient st) (subs st)
    (curSub st) v (syncStarted st) (syncComplete st) (pendingMsg st)
    (isLoaded st).
Definition set_syncStarted (v : StreamContent) (st : St) : St :=
  mkState (ws st) (retries st) (timeout st) (numSyncs st) (closedByClient st) (subs st)
    (curSub st) (syncSent st) v (syncComplete st) (pendingMsg st)
    (isLoaded st).
Definition set_syncComplete (v : StreamContent) (st : St) : St :=
  mkState (ws st) (retries st) (timeout st) (numSyncs st) (closedByClient st) (subs st)
    (curSub st) (syncSent st) (syncStarted st) v (pendingMsg st)
    (isLoaded st).
Definition set_pendingMsg (v : list StreamContent) (st : St) : St :=
  mkState (ws st) (retries st) (timeout st) (numSyncs st) (closedByClient st) (subs st)
    (curSub st) (syncSent st) (syncStarted st) (syncComplete st) v
    (isLoaded st).

(** The field initialisers of the class. *)
Definition initial (now : Z) (loaded_cb : bool) : St :=
  mkState None 0 now 0 false [] None VUndefined VUndefined VUndefined [] loaded_cb.

(** A [SubscriptionWithCache] used where a [Subscription] is expected
    ([spec = this.#curSub]): nothing that receives it reads the cache. *)
Definition forget_cache (e : SubscriptionWithCache Sp KC) : Subscription Sp :=
  {| sub_spec := swc_spec e; sub_id := swc_id e |}.

Definition as_group (c : Obj (SubscriptionWithCache Sp KC)) : SubscriptionGroup Sp :=
  map (fun kv => (fst kv, forget_cache (snd kv))) c.

(** [map(spec, (s) => s?.id || '').filter((i) => !!i)] *)
Definition labels (spec : SubscriptionGroup Sp) : list string :=
  filter (fun i => negb (String.eqb i ""))
    (map (fun s => match sub_id s with Some i => i | None => "" end)
       (obj_values spec)).

(** [#handleSubFinish] *)
Definition handleSubFinish (spec : SubscriptionGroup Sp) (st : St) : Result :=
  (st, (if isLoaded st then [Loaded (labels spec)] else []), Normal).

(** [#shouldSkip]: [skip] stays true when every entry of [newSub] has an
    active entry under its key whose spec [equals] it.  The keys of a
    subscription group are the [id()] of specs, [Streamable]s in the
    source; a lookup by such a key is a lookup of an own property.  (The
    name of a message field comes from the wire and can also hit a member
    inherited from [Object.prototype]: see [inherited] below.) *)
Definition shouldSkip (newSub : SubscriptionGroup Sp) (st : St) : bool :=
  match curSub st with
  | None => false
  | Some cur =>
      forallb
        (fun kv =>
           match obj_get cur (fst kv) with
           | Some c => equals (swc_spec c) (sub_spec (snd kv))
           | None => false
           end)
        newSub
  end.

(** The accumulator of the [reduce] in [#sendSpec]: [newSpecWithCache],
    [payload.known] and [payload.subscribe]. *)
Definition SendAcc : Type :=
  (Obj (SubscriptionWithCache Sp KC) * Obj StreamContent * Obj StreamContent)%type.

Definition sendSpec_step (cur : option (Obj (SubscriptionWithCache Sp KC)))
    (acc : SendAcc) (ent : Subscription Sp) : SendAcc :=
  match acc with
  | (newSpecWithCache, p_known, p_subscribe) =>
      let k := spec_id (sub_spec ent) in
      let curSpec := match cur with Some c => obj_get c k | None => None end in
      let kc := match curSpec with Some c => keyCache c | None => new_KeyCache end in
      (obj_set newSpecWithCache k
         {| swc_spec := sub_spec ent; swc_id := sub_id ent; keyCache := kc |},
       obj_set p_known k (known kc),
       obj_set p_subscribe k
         (VObj (obj_set (toWire (sub_spec ent)) "since" (VNum (maxSeq kc)))))
  end.

(** [#sendSpec] *)
Definition sendSpec (newSub : SubscriptionGroup Sp) (st : St) : Result :=
  let n := S (numSyncs st) in
  let sync_id := toString n in
  let wholeSub :=
    match curSub st with
    | Some c => obj_spread (as_group c) newSub
    | None => newSub
    end in
  match fold_left (sendSpec_step (curSub st)) (obj_values wholeSub) ([], [], []) with
  | (newSpecWithCache, p_known, p_subscribe) =>
      let payload :=
        VObj [("known", VObj p_known); ("subscribe", VObj p_subscribe);
              ("sync_id", VStr sync_id)] in
      let st1 := set_curSub (Some newSpecWithCache) (set_numSyncs n st) in
      match ws st1 with
      | None => (st1, [], Thrown TypeError)      (* this.#ws!.send *)
      | Some _ => (set_syncSent (VStr sync_id) st1, [Sent payload], Normal)
      end
  end.

(** [this.#curSub?.[key]?.keyCache.m(...)] where [this.#curSub?.[key]] is
    nullish or an own property of the active subscription: a method call on
    the cache of that group, when there is one. *)
Definition with_keyCache (key : string) (m : KC -> KC) (st : St) : St :=
  match curSub st with
  | None => st
  | Some cur =>
      match obj_get cur key with
      | None => st
      | Some e =>
          set_curSub
            (Some (obj_set cur key
                     {| swc_spec := swc_spec e; swc_id := swc_id e;
                        keyCache := m (keyCache e) |}))
            st
      end
  end.

Definition has_keyCache (key : string) (st : St) : bool :=
  match curSub st with
  | None => false
  | Some cur => match obj_get cur key with None => false | Some _ => true end
  end.

(** [this.#curSub?.[key]] finds no own property but a member inherited from
    [Object.prototype] (the active subscription is an object literal).
    That member is not nullish and has no [keyCache], so that the method
    call on [.keyCache] throws a TypeError. *)
Definition inherited (key : string) (st : St) : bool :=
  match curSub st with
  | None => false
  | Some cur =>
      match obj_get cur key with
      | Some _ => false
      | None => is_inherited_name key
      end
  end.

(** [this.#curSub?.[StreamEntityMap[k]]]: a missing table entry is
    [undefined], which indexes the property named "undefined". *)
Definition entity_group (k : string) : string :=
  match StreamEntityMap k with
  | Some g => g
  | None => "undefined"
  end.

(** The callback of the [forEach] over the fields of a delta message. *)
Definition dispatchField (msg : Obj StreamContent) (kv : string * StreamContent)
    (st : St) : Result :=
  let k := fst kv in
  let val := snd kv in
  if includes "_deleted" k then
    let stream_key := trimEnd k "_deleted" in
    let deleted_keys := decode_keys val in
    if inherited stream_key st then (st, [], Thrown TypeError)
    else
      (with_keyCache stream_key (delete_msg deleted_keys) st,
       [Delete stream_key deleted_keys], Normal)
  else if inherited (entity_group k) st then (st, [], Thrown TypeError)
  else if has_keyCache (entity_group k) st then
    match get_prop val "id", get_prop val "seq" with
    | Some i, Some q =>
        (with_keyCache (entity_group k) (upsert [i] q) st, [Upsert msg], Normal)
    | _, _ => (st, [], Thrown TypeError)
    end
  else (st, [Upsert msg], Normal).

(** lodash [baseForOwn]: the callback on every own property of the message,
    in order; the callback never returns [false], so the iteration never
    stops early. *)
Fixpoint forOwnField (msg : Obj StreamContent) (fields : Obj StreamContent)
    (st : St) : Result :=
  match fields with
  | [] => ret st
  | kv :: rest => andThen (dispatchField msg kv st) (forOwnField msg rest)
  end.

(** lodash [forEach(msg, callback)] on a parsed object ([fields] are the
    properties of [msg]).  An object that is array-like is iterated as an
    array, by the indices below its [length]: the callback receives the
    number 0 for [k] first, and [k.includes] throws a TypeError; with
    [length] 0 the callback is never invoked.  Any other object is iterated
    by its own properties. *)
Definition forEachField (msg : Obj StreamContent) (fields : Obj StreamContent)
    (st : St) : Result :=
  match array_like fields with
  | Some n => if (n =? 0)%Z then ret st else (st, [], Thrown TypeError)
  | None => forOwnField msg fields st
  end.

(** The body of the loop of [#processPending], for a shifted message that is
    an object. *)
Definition processMsg (msg : Obj StreamContent) (st : St) : Result :=
  if truthy (msg_get msg "sync_id") then
    if negb (truthy (msg_get msg "complete")) then
      ret (set_syncStarted (msg_get msg "sync_id") st)
    else
      andThen
        (handleSubFinish
           (match curSub st with Some c => as_group c | None => [] end) st)
        (fun st1 => ret (set_syncComplete (msg_get msg "sync_id") st1))
  else if negb (strict_eq (syncSent st) (syncStarted st)) then
    (* Ignore all messages between when we send a new subscription and when
       the sync-start message for that subscription arrives. *)
    ret st
  else forEachField msg msg st.

(** The body of the loop for any truthy message.  Only an object has a
    [sync_id]; of the others [forEach] visits the elements of an array and
    the characters of a string by index, so that [k.includes] throws a
    TypeError at the first one, and finds nothing to visit in a number or a
    boolean. *)
Definition processValue (msg : StreamContent) (st : St) : Result :=
  match msg with
  | VObj fields => processMsg fields st
  | VArr (_ :: _) | VStr (String _ _) =>
      if negb (strict_eq (syncSent st) (syncStarted st)) then ret st
      else (st, [], Thrown TypeError)
  | _ => ret st
  end.

(** The [while (this.#pendingMsg.length > 0)] loop: [shift], then
    [if (!msg) break], then the body. *)
Fixpoint processPendingLoop (queue : list StreamContent) (st : St) : Result :=
  match queue with
  | [] => ret st
  | msg :: rest =>
      let st1 := set_pendingMsg rest st in
      if negb (truthy msg) then ret st1
      else andThen (processValue msg st1) (processPendingLoop rest)
  end.

(** [#processPending] *)
Definition processPending (st : St) : Result := processPendingLoop (pendingMsg st) st.

(** The [while ((spec = this.#subs.shift()))] loop of [#processSubscription]. *)
Fixpoint drainSubs (queue : list (SubscriptionGroup Sp)) (st : St) : Result :=
  match queue with
  | [] => ret st
  | spec :: rest =>
      let st1 := set_subs rest st in
      if shouldSkip spec st1 then
        andThen (handleSubFinish spec st1) (drainSubs rest)
      else sendSpec spec st1
  end.

(** [#processSubscription] *)
Definition processSubscription (st : St) : Result :=
  match curSub st, subs st with
  | None, [] => ret st
  | _, _ =>
      if negb (truthy (syncSent st)) then
        (* The websocket just connected/reconnected.
           Resend current subscription if current sync not completed. *)
        match curSub st with
        | Some c =>
            if negb (truthy (syncComplete st))
               || negb (strict_eq (syncStarted st) (syncComplete st))
            then sendSpec (as_group c) st
            else
              match subs st with
              | [] => ret st
              | spec :: rest => sendSpec spec (set_subs rest st)
              end
        | None =>
            match subs st with
            | [] => ret st
            | spec :: rest => sendSpec spec (set_subs rest st)
            end
        end
      else if negb (strict_eq (syncComplete st) (syncSent st)) then ret st
      else drainSubs (subs st) st
  end.

(** [#advance], run when the clock shows [now]. *)
Definition advance (now : Z) (st : St) : Result :=
  if closedByClient st then
    match ws st with
    | Some CONNECTING | Some OPEN => (set_ws (Some CLOSING) st, [WsClose], Normal)
    | _ => ret st
    end
  else
    let reconnect (st0 : St) : Result :=
      let r :=
        match ws st0 with
        | None => (set_ws (Some CONNECTING) st0, [Connect], Normal)
        | Some _ => ret st0
        end in
      andThen r (fun st1 =>
        match ws st1 with
        | Some OPEN => andThen (processPending st1) processSubscription
        | _ => ret st1
        end) in
    match ws st with
    | Some CLOSED =>
        if (now <? timeout st)%Z then ret st else reconnect (set_ws None st)
    | _ => reconnect st
    end.

(** ** The handlers and the public methods *)

(** The constructor. *)
Definition construct (loaded_cb : bool) (now : Z) : Result :=
  advance now (initial now loaded_cb).

(** [ws.onopen]; the socket is [OPEN] when it fires. *)
Definition onopen (now : Z) (st : St) : Result :=
  advance now (set_retries 0 (set_ws (Some OPEN) st)).

(** [ws.onclose]; the socket is [CLOSED] when it fires. *)
Definition onclose (now : Z) (st : St) : Result :=
  let st1 := set_syncSent VUndefined (set_ws (Some CLOSED) st) in
  match nth_error backoffs (retries st1) with
  | None => (st1, [], Thrown CannotReconnect)
  | Some backoff =>
      (set_retries (S (retries st1)) (set_timeout (now + backoff * 1000)%Z st1),
       [SetTimeout (backoff * 1000)%Z], Normal)
  end.

(** [ws.onmessage], after [JSON.parse]. *)
Definition onmessage (msg : StreamContent) (now : Z) (st : St) : Result :=
  advance now (set_pendingMsg (pendingMsg st ++ [msg])%list st).

(** [subscribe(spec, id)] *)
Definition subscribe (spec : Sp) (id : option string) (now : Z) (st : St) : Result :=
  advance now
    (set_subs (subs st ++ [[(spec_id spec, {| sub_spec := spec; sub_id := id |})]])%list st).

(** [close()] *)
Definition close (now : Z) (st : St) : Result :=
  advance now (set_closedByClient true st).

(** Everything that can happen to an engine. *)
Inductive Event : Type :=
| EvOpen
| EvClose
| EvMessage (msg : StreamContent)
| EvTimer
| EvSubscribe (spec : Sp) (id : option string)
| EvCloseCall.

Definition handle (ev : Event) (now : Z) (st : St) : Result :=
  match ev with
  | EvOpen => onopen now st
  | EvClose => onclose now st
  | EvMessage msg => onmessage msg now st
  | EvTimer => advance now st
  | EvSubscribe spec id => subscribe spec id now st
  | EvCloseCall => close now st
  end.

(** ** Vocabulary of the properties that depends on the imports *)

(** The callback one field of a delta message leads to. *)
Definition field_effect (msg : Obj StreamContent) (kv : string * StreamContent) : Effect :=
  if marked (fst kv)
  then Delete (trimEnd (fst kv) "_deleted") (decode_keys (snd kv))
  else Upsert msg.

(** The key cache the active subscription holds for a group. *)
Definition cache_of (group : string) (st : St) : option KC :=
  match curSub st with
  | None => None
  | Some cur => option_map (@keyCache Sp KC) (obj_get cur group)
  end.

(** The two things the sync markers of the state change by: a subscription
    is sent, or the dispatcher processes one inbound message. *)
Inductive Step : Type :=
| StepSend (newSub : SubscriptionGroup Sp)
| StepMsg (msg : Obj StreamContent).

Definition do_step (s : Step) (st : St) : St :=
  match s with
  | StepSend newSub => state_of (sendSpec newSub st)
  | StepMsg msg => state_of (processMsg msg st)
  end.

(** The states an engine goes through, the first one included. *)
Fixpoint history (steps : list Step) (st : St) : list St :=
  st :: match steps with
        | [] => []
        | s :: rest => history rest (do_step s st)
        end.

(** The inbound messages bring the completion marker of an identifier only
    after a start marker of the same identifier. *)
Definition markers_ordered (steps : list Step) : Prop :=
  forall i msg,
    nth_error steps i = Some (StepMsg msg) ->
    is_complete_marker msg = true ->
    exists j msg',
      j < i /\ nth_error steps j = Some (StepMsg msg') /\
      is_start_marker msg' = true /\
      msg_get msg' "sync_id" = msg_get msg "sync_id".

(** One immediate disconnect: the socket closes at [now], and the timer
    that [onclose] set fires once the backoff has elapsed. *)
Definition disconnect_cycle (now : Z) (st : St) : Result :=
  andThen (onclose now st) (fun st1 => advance (timeout st1) st1).

(** Consecutive immediate disconnects, at the given times. *)
Fixpoint disconnects (times : list Z) (st : St) : Result :=
  match times with
  | [] => ret st
  | now :: rest => andThen (disconnect_cycle now st) (disconnects rest)
  end.


(** The active subscription as [#sendSpec] builds it: one entry per key,
    each under the [id()] of its spec. *)
Definition well_keyed (cur : Obj (SubscriptionWithCache Sp KC)) : Prop :=
  NoDup (map fst cur) /\
  forall k e, In (k, e) cur -> k = spec_id (swc_spec e).

(** The payload that announces the subscription [cur] under [sync_id]: for
    every group what its key cache knows, and its spec with the [since]
    cursor of the cache. *)
Definition payload_of (cur : Obj (SubscriptionWithCache Sp KC)) (sync_id : string)
    : StreamContent :=
  VObj [("known", VObj (map (fun kv => (fst kv, known (keyCache (snd kv)))) cur));
        ("subscribe",
         VObj (map (fun kv =>
                      (fst kv,
                       VObj (obj_set (toWire (swc_spec (snd kv))) "since"
                               (VNum (maxSeq (keyCache (snd kv))))))) cur));
        ("sync_id", VStr sync_id)].


(** ** Vocabulary of the further properties *)

(** A run of the engine: the events with the time of each, one after the
    other.  An exception ends the handler that threw, not the engine: what
    the handler did before stays done and the next event finds that state. *)
Fixpoint runEvents (evs : list (Z * Event)) (st : St) : St * list Effect :=
  match evs with
  | [] => (st, [])
  | (now, ev) :: rest =>
      let r := handle ev now st in
      let r' := runEvents rest (state_of r) in
      (fst r', (effects_of r ++ snd r')%list)
  end.

(** The [sync_id] of every payload sent, in order. *)
Definition sent_ids (out : list Effect) : list StreamContent :=
  flat_map
    (fun e =>
       match e with
       | Sent (VObj fields) => [msg_get fields "sync_id"]
       | Sent _ => [VUndefined]
       | _ => []
       end)
    out.

(** A subscription group as [subscribe] builds it: one entry per key, each
    under the [id()] of its spec. *)
Definition group_keyed (g : SubscriptionGroup Sp) : Prop :=
  NoDup (map fst g) /\
  forall k e, In (k, e) g -> k = spec_id (sub_spec e).

(** [{ ...this.#curSub, ...newSub }], or [newSub] when nothing is active. *)
Definition merged (old : option (Obj (SubscriptionWithCache Sp KC)))
    (newSub : SubscriptionGroup Sp) : SubscriptionGroup Sp :=
  match old with
  | Some c => obj_spread (as_group c) newSub
  | None => newSub
  end.

(** An entry with the key cache the active subscription holds under its
    key, or with a new one. *)
Definition attach_cache (old : option (Obj (SubscriptionWithCache Sp KC)))
    (kv : string * Subscription Sp) : string * SubscriptionWithCache Sp KC :=
  (fst kv,
   {| swc_spec := sub_spec (snd kv);
      swc_id := sub_id (snd kv);
      keyCache :=
        match old with
        | Some c =>
            match obj_get c (fst kv) with
            | Some e => keyCache e
            | None => new_KeyCache
            end
        | None => new_KeyCache
        end |}).

(** The subscription that is active after [newSub] was sent over [old]. *)
Definition adopted (old : option (Obj (SubscriptionWithCache Sp KC)))
    (newSub : SubscriptionGroup Sp) : Obj (SubscriptionWithCache Sp KC) :=
  map (attach_cache old) (merged old newSub).

(** The group whose key cache a field of a delta message is applied to. *)
Definition target_group (k : string) : string :=
  if marked k then trimEnd k "_deleted" else entity_group k.

(** The callback throws on the field: the group it targets is only an
    inherited member of the active subscription, or the field is an entity
    of a group with a key cache and reading its [id] throws. *)
Definition throws_on (st : St) (kv : string * StreamContent) : bool :=
  inherited (target_group (fst kv)) st
  || (negb (marked (fst kv)) && has_keyCache (entity_group (fst kv)) st
      && negb (readable (snd kv))).

(** What only the connection handlers and [close()] assign. *)
Definition connection_fields (st : St) : nat * Z * bool * bool :=
  (retries st, timeout st, closedByClient st, isLoaded st).

(** What the fields say about each other in every state of a run. *)
Definition consistent (st : St) : Prop :=
  (syncSent st = VUndefined \/ syncSent st = VStr (toString (numSyncs st))) /\
  (curSub st = None <-> numSyncs st = 0) /\
  (forall cur, curSub st = Some cur -> well_keyed cur) /\
  retries st <= List.length backoffs.


(** The [k] sync identifiers that follow the counter value [n]. *)
Definition ids_from (n k : nat) : list StreamContent :=
  map (fun i => VStr (toString i)) (seq (S n) k).

(** The sends of [r], started in [st], carry the identifiers that follow
    [numSyncs st], in order, and [numSyncs] has counted them. *)
Definition numbered (st : St) (r : Result) : Prop :=
  sent_ids (effects_of r) = ids_from (numSyncs st) (count is_sent (effects_of r)) /\
  numSyncs (state_of r) = numSyncs st + count is_sent (effects_of r).


End Engine.

Arguments Result : clear implicits.

(** ** A key cache and a spec to run the engine on *)

Module Model.

(** Modelled from the spec: the key cache of [./keyCache], which is not
    among the sources.  The spec describes it as the per-group record of
    the known primary keys and the highest sequence number observed, with
    the operations known key set, max sequence, record upsert(ids, seq) and
    record delete(ids). *)
Record KeyCache : Type := {
  kc_keys : list Z;
  kc_maxSeq : Z
}.

Definition add_key (k : Z) (keys : list Z) : list Z :=
  if existsb (Z.eqb k) keys then keys else (keys ++ [k])%list.

Definition kc_upsert (ids : list StreamContent) (seq : StreamContent) (kc : KeyCache)
    : KeyCache :=
  {| kc_keys :=
       fold_left (fun keys i => match i with VNum k => add_key k keys | _ => keys end)
         ids (kc_keys kc);
     kc_maxSeq := match seq with VNum q => Z.max (kc_maxSeq kc) q | _ => kc_maxSeq kc end |}.

Definition kc_delete_msg (ids : list Z) (kc : KeyCache) : KeyCache :=
  {| kc_keys := filter (fun k => negb (existsb (Z.eqb k) ids)) (kc_keys kc);
     kc_maxSeq := kc_maxSeq kc |}.

(** Modelled from the spec: [decode_keys], which the spec only calls the
    decoding of a serialized list of deleted primary keys.  The encoding
    chosen here is decimal keys separated by commas. *)
Fixpoint decode_from (s : string) (cur : option Z) : list Z :=
  match s with
  | EmptyString => match cur with Some n => [n] | None => [] end
  | String c rest =>
      if Ascii.eqb c ","%char then
        match cur with Some n => n :: decode_from rest None | None => decode_from rest None end
      else
        let d := (Z.of_nat (nat_of_ascii c) - 48)%Z in
        decode_from rest (Some (match cur with Some n => n * 10 + d | None => d end)%Z)
  end.

Definition kc_decode_keys (v : StreamContent) : list Z :=
  match v with
  | VStr s => decode_from s None
  | _ => []
  end.

#[export] Instance KeyCache_ops : KeyCacheOps KeyCache := {|
  new_KeyCache := {| kc_keys := []; kc_maxSeq := 0 |};
  known := fun kc => VArr (map VNum (kc_keys kc));
  maxSeq := kc_maxSeq;
  upsert := kc_upsert;
  delete_msg := kc_delete_msg;
  decode_keys := kc_decode_keys
|}.

(** A spec that watches a list of identifiers of one group. *)
Record IdsSpec : Type := {
  is_group : string;
  is_ids : list Z
}.

Definition IdsSpec_equals (a b : IdsSpec) : bool :=
  String.eqb (is_group a) (is_group b)
  && if list_eq_dec Z.eq_dec (is_ids a) (is_ids b) then true else false.

#[export] Instance IdsSpec_spec : StreamSpec IdsSpec := {|
  spec_id := is_group;
  equals := IdsSpec_equals;
  toWire := fun s => [("ids", VArr (map VNum (is_ids s)))]
|}.

(** The table of the examples: the tag of a field is its group. *)
Definition entityMap (k : string) : option string :=
  if String.eqb k "trials" then Some "trials"
  else if String.eqb k "experiment" then Some "experiments"
  else None.

Definition Engine : Type := State IdsSpec KeyCache.

(** A run: the events with the time of each, one after the other; an
    exception ends the handler that threw, not the engine. *)
Fixpoint run (evs : list (Z * Event (Sp := IdsSpec))) (st : Engine) : Engine * list Effect :=
  match evs with
  | [] => (st, [])
  | (now, ev) :: rest =>
      let r := handle entityMap ev now st in
      let r' := run rest (state_of r) in
      (fst r', (effects_of r ++ snd r')%list)
  end.

End Model.



(** ** Scenarios *)

Module Scenario.

Import Model.

Definition trialsA : IdsSpec := {| is_group := "trials"; is_ids := [1; 2]%Z |}.
Definition trialsB : IdsSpec := {| is_group := "trials"; is_ids := [5]%Z |}.

(** The catch-up markers of a sync. *)
Definition startM (sync_id : string) : Obj StreamContent :=
  [("sync_id", VStr sync_id); ("complete", VBool false)].
Definition doneM (sync_id : string) : Obj StreamContent :=
  [("sync_id", VStr sync_id); ("complete", VBool true)].

(** An engine just constructed, with a loaded callback; its socket is still
    connecting. *)
Definition fresh : Engine := state_of (construct entityMap true 0).

(** The socket opened before the owner subscribed to anything. *)
Definition opened0 : Engine := fst (run [(1, EvOpen)]%Z fresh).

(** The owner subscribed to [trialsA] and the socket opened: sync "1" is
    sent and unanswered. *)
Definition sent1 : Engine :=
  fst (run [(1, EvSubscribe trialsA (Some "a")); (2, EvOpen)]%Z fresh).

(** Catch-up of sync "1" started and completed. *)
Definition active1 : Engine :=
  fst (run [(3, EvMessage (VObj (startM "1"))); (4, EvMessage (VObj (doneM "1")))]%Z sent1).

(** Then the owner subscribed to [trialsB], which went out as sync "2", and
    the socket closed before the server answered; the timer fired and a new
    socket is connecting. *)
Definition dropped2 : Engine :=
  fst (run [(5, EvSubscribe trialsB (Some "b")); (6, EvClose); (7, EvTimer)]%Z active1).

(** One subscription after the other, each caught up before the next. *)
Definition round (n : nat) : list (Z * Event (Sp := IdsSpec)) :=
  [(Z.of_nat n, EvSubscribe {| is_group := "trials"; is_ids := [Z.of_nat n] |} None);
   (Z.of_nat n, EvMessage (VObj (startM (toString n))));
   (Z.of_nat n, EvMessage (VObj (doneM (toString n))))].

(** Sync "7" is active and complete, and the trials 3 and 4 are known. *)
Definition active7 : Engine :=
  fst (run ((0%Z, EvOpen) :: flat_map round [1; 2; 3; 4; 5; 6; 7] ++
            [(8, EvMessage (VObj [("trials", VObj [("id", VNum 3); ("seq", VNum 9)])]));
             (9, EvMessage (VObj [("trials", VObj [("id", VNum 4); ("seq", VNum 10)])]))]%Z)%list
         fresh).


(** The owner closed the engine while sync "1" was active. *)
Definition closed1 : Engine := state_of (close entityMap 5 active1).

(** Sync "1" was sent and the socket was lost before the server answered;
    a new socket is connecting. *)
Definition dropped1 : Engine := fst (run [(3, EvClose); (4, EvTimer)]%Z sent1).

(** Two immediate disconnects in a row after sync "1" completed. *)
Definition twice_dropped : Engine :=
  state_of (disconnects entityMap [10; 20]%Z active1).

Definition experimentsC : IdsSpec := {| is_group := "experiments"; is_ids := [9]%Z |}.


(** [experiments] was subscribed besides [trials] and its catch-up is done:
    sync "8" is active with two groups. *)
Definition two_groups : Engine :=
  Eval vm_compute in
    fst (run [(10, EvSubscribe experimentsC (Some "c"));
              (11, EvMessage (VObj (startM "8"))); (12, EvMessage (VObj (doneM "8")))]%Z active7).

(** The state [active7], evaluated. *)
Definition caught_up7 : Engine := Eval vm_compute in active7.

End Scenario.

(** * Properties *)

Section Properties.

Context {Sp KC : Type} {specI : StreamSpec Sp} {cacheI : KeyCacheOps KC}.
Variable StreamEntityMap : string -> option string.

Local Abbreviation St := (State Sp KC).
Local Abbreviation Res := (Result Sp KC).

(** ** Sequencing *)

Lemma andThen_normal (st : St) out (f : St -> Res) :
  andThen (st, out, Normal) f =
  (state_of (f st), (out ++ effects_of (f st))%list, outcome_of (f st)).
Proof.
  unfold andThen, state_of, effects_of, outcome_of.
  destruct (f st) as [[st' out'] o]; reflexivity.
Qed.

Lemma effects_andThen (r : Res) (f : St -> Res) :
  effects_of (andThen r f) =
  (effects_of r ++
   match outcome_of r with
   | Normal => effects_of (f (state_of r))
   | Thrown _ => []
   end)%list.
Proof.
  destruct r as [[st out] [|e]].
  - rewrite andThen_normal. reflexivity.
  - cbn. now rewrite app_nil_r.
Qed.

Lemma outcome_andThen (r : Res) (f : St -> Res) :
  outcome_of (andThen r f) =
  match outcome_of r with
  | Normal => outcome_of (f (state_of r))
  | Thrown e => Thrown e
  end.
Proof.
  destruct r as [[st out] [|e]].
  - rewrite andThen_normal. reflexivity.
  - reflexivity.
Qed.

Lemma state_andThen (r : Res) (f : St -> Res) :
  state_of (andThen r f) =
  match outcome_of r with
  | Normal => state_of (f (state_of r))
  | Thrown _ => state_of r
  end.
Proof.
  destruct r as [[st out] [|e]].
  - rewrite andThen_normal. reflexivity.
  - reflexivity.
Qed.

Lemma count_app p (a b : list Effect) : count p (a ++ b) = count p a + count p b.
Proof. unfold count. now rewrite filter_app, length_app. Qed.

(** ** Effects of the single methods *)

Lemma handleSubFinish_state spec (st : St) : state_of (handleSubFinish spec st) = st.
Proof. reflexivity. Qed.

Lemma handleSubFinish_no_sent spec (st : St) :
  count is_sent (effects_of (handleSubFinish spec st)) = 0.
Proof. unfold handleSubFinish; cbn. now destruct (isLoaded st). Qed.

Lemma sendSpec_sent_le spec (st : St) :
  count is_sent (effects_of (sendSpec spec st)) <= 1.
Proof.
  unfold sendSpec.
  destruct (fold_left _ _ _) as [[nsc pk] ps]. cbn.
  destruct (ws st); cbn; lia.
Qed.

(** The callback of the dispatcher either throws before it did anything,
    or calls one method on the key cache of the group the field targets and
    then the callback of the owner. *)
Lemma with_keyCache_absent g m (st : St) :
  has_keyCache g st = false -> with_keyCache g m st = st.
Proof.
  unfold has_keyCache, with_keyCache. destruct (curSub st) as [cur|]; [|reflexivity].
  destruct (obj_get cur g); [discriminate | reflexivity].
Qed.

Lemma dispatchField_cases msg kv (st : St) :
  (throws_on StreamEntityMap st kv = true /\
   dispatchField StreamEntityMap msg kv st = (st, [], Thrown TypeError)) \/
  (throws_on StreamEntityMap st kv = false /\
   exists m, dispatchField StreamEntityMap msg kv st =
     (with_keyCache (target_group StreamEntityMap (fst kv)) m st,
      [field_effect msg kv], Normal)).
Proof.
  unfold dispatchField, throws_on, target_group, field_effect, marked.
  destruct (includes "_deleted" (fst kv)); cbn [negb andb].
  - destruct (inherited _ st); cbn [orb]; [left; now split|].
    right. split; [reflexivity|]. eexists. reflexivity.
  - destruct (inherited _ st); cbn [orb]; [left; now split|].
    destruct (has_keyCache _ st) eqn:Hh; cbn [andb].
    + destruct (snd kv); cbn [readable negb get_prop];
        solve [ left; now split | right; split; [reflexivity|]; eexists; reflexivity ].
    + right. split; [reflexivity|]. exists (fun kc => kc).
      now rewrite with_keyCache_absent.
Qed.

(** What lodash [forEach] does with a message: nothing, an exception at
    once, or the callback on every own property. *)
Lemma forEachField_cases msg fields (st : St) :
  forEachField StreamEntityMap msg fields st = (st, [], Normal) \/
  forEachField StreamEntityMap msg fields st = (st, [], Thrown TypeError) \/
  (array_like fields = None /\
   forEachField StreamEntityMap msg fields st = forOwnField StreamEntityMap msg fields st).
Proof.
  unfold forEachField. destruct (array_like fields) as [n|].
  - destruct (n =? 0)%Z; [left | right; left]; reflexivity.
  - right; right. now split.
Qed.

(** What the loop body does with a message that is no object: nothing, or
    an exception at once. *)
Lemma processValue_cases v (st : St) :
  processValue StreamEntityMap v st = (st, [], Normal) \/
  processValue StreamEntityMap v st = (st, [], Thrown TypeError) \/
  (exists fields, v = VObj fields /\
   processValue StreamEntityMap v st = processMsg StreamEntityMap fields st).
Proof.
  destruct v as [| |b|n|s|items|fields]; cbn [processValue];
    try (left; reflexivity).
  - destruct s; [left; reflexivity|].
    destruct (negb _); [left | right; left]; reflexivity.
  - destruct items; [left; reflexivity|].
    destruct (negb _); [left | right; left]; reflexivity.
  - right; right. eexists. now split.
Qed.

Lemma dispatchField_no_sent msg kv (st : St) :
  count is_sent (effects_of (dispatchField StreamEntityMap msg kv st)) = 0.
Proof.
  destruct (dispatchField_cases msg kv st) as [[_ ->] | [_ [m ->]]]; [reflexivity|].
  unfold field_effect; cbn. now destruct (marked (fst kv)).
Qed.

Lemma forOwnField_no_sent msg fields (st : St) :
  count is_sent (effects_of (forOwnField StreamEntityMap msg fields st)) = 0.
Proof.
  revert st; induction fields as [|kv rest IH]; intros st; [reflexivity|].
  cbn [forOwnField]. rewrite effects_andThen, count_app, dispatchField_no_sent.
  destruct (outcome_of _); [apply IH | reflexivity].
Qed.

Lemma forEachField_no_sent msg fields (st : St) :
  count is_sent (effects_of (forEachField StreamEntityMap msg fields st)) = 0.
Proof.
  destruct (forEachField_cases msg fields st) as [-> | [-> | [_ ->]]];
    [reflexivity | reflexivity | apply forOwnField_no_sent].
Qed.

Lemma processMsg_no_sent msg (st : St) :
  count is_sent (effects_of (processMsg StreamEntityMap msg st)) = 0.
Proof.
  unfold processMsg.
  destruct (truthy (msg_get msg "sync_id")).
  - destruct (negb _); [reflexivity|].
    rewrite effects_andThen, count_app, handleSubFinish_no_sent. reflexivity.
  - destruct (negb _); [reflexivity | apply forEachField_no_sent].
Qed.

Lemma processValue_no_sent v (st : St) :
  count is_sent (effects_of (processValue StreamEntityMap v st)) = 0.
Proof.
  destruct (processValue_cases v st) as [-> | [-> | [fields [_ ->]]]];
    [reflexivity | reflexivity | apply processMsg_no_sent].
Qed.

Lemma processPendingLoop_no_sent queue (st : St) :
  count is_sent (effects_of (processPendingLoop StreamEntityMap queue st)) = 0.
Proof.
  revert st; induction queue as [|msg rest IH]; intros st; [reflexivity|].
  cbn [processPendingLoop]. destruct (negb (truthy msg)); [reflexivity|].
  rewrite effects_andThen, count_app, processValue_no_sent.
  destruct (outcome_of _); [apply IH | reflexivity].
Qed.

Lemma drainSubs_sent_le queue (st : St) :
  count is_sent (effects_of (drainSubs queue st)) <= 1.
Proof.
  revert st; induction queue as [|spec rest IH]; intros st; [cbn; lia|].
  cbn [drainSubs]. destruct (shouldSkip spec _).
  - rewrite effects_andThen, count_app, handleSubFinish_no_sent. cbn [outcome_of handleSubFinish snd].
    apply IH.
  - apply sendSpec_sent_le.
Qed.

Lemma processSubscription_sent_le (st : St) :
  count is_sent (effects_of (processSubscription st)) <= 1.
Proof.
  unfold processSubscription.
  assert (Hret : count is_sent (effects_of (ret st)) <= 1) by (cbn; lia).
  assert (Hshift : count is_sent (effects_of
            match subs st with
            | [] => ret st
            | spec :: rest => sendSpec spec (set_subs rest st)
            end) <= 1).
  { destruct (subs st); [exact Hret | apply sendSpec_sent_le]. }
  destruct (curSub st) as [c|].
  - destruct (subs st) eqn:Hs;
      (destruct (negb (truthy (syncSent st)));
       [ destruct (_ || _); [apply sendSpec_sent_le | exact Hshift]
       | destruct (negb (strict_eq _ _)); [exact Hret | apply drainSubs_sent_le] ]).
  - destruct (subs st) eqn:Hs; [exact Hret|].
    destruct (negb (truthy (syncSent st))); [apply sendSpec_sent_le|].
    destruct (negb (strict_eq _ _)); [exact Hret | apply drainSubs_sent_le].
Qed.

(** ** The dispatcher, one message at a time *)

(** C1.  A message without a [sync_id] field that is processed while
    [syncSent !== syncStarted] is dropped: the state, and with it the key
    cache of every group, is what it was, and no callback is invoked. *)
Theorem C1_stale_update_discarded (msg : Obj StreamContent) (st : St) :
  obj_get msg "sync_id" = None ->
  strict_eq (syncSent st) (syncStarted st) = false ->
  processMsg StreamEntityMap msg st = (st, [], Normal).
Proof.
  intros Hno Hne. unfold processMsg, msg_get.
  rewrite Hno. cbn [truthy]. rewrite Hne. reflexivity.
Qed.

(** C9, as the code has it.  A message whose [sync_id] is truthy is a
    marker whatever [syncSent] and [syncStarted] are, and processing it
    ends normally.  With a falsy [complete] it stores its [sync_id] in
    [syncStarted], invokes no callback and leaves every other field of the
    state as it was.  With a truthy [complete] it resolves the loaded
    callback (when there is one) with the labels of the active subscription,
    stores its [sync_id] in [syncComplete] and leaves every other field as
    it was. *)
Theorem C9_marker_never_discarded (msg : Obj StreamContent) (st : St) :
  truthy (msg_get msg "sync_id") = true ->
  let r := processMsg StreamEntityMap msg st in
  outcome_of r = Normal /\
  (truthy (msg_get msg "complete") = false ->
   syncStarted (state_of r) = msg_get msg "sync_id" /\
   effects_of r = [] /\
   state_of r =
     mkState (ws st) (retries st) (timeout st) (numSyncs st) (closedByClient st)
       (subs st) (curSub st) (syncSent st) (msg_get msg "sync_id") (syncComplete st)
       (pendingMsg st) (isLoaded st)) /\
  (truthy (msg_get msg "complete") = true ->
   syncComplete (state_of r) = msg_get msg "sync_id" /\
   effects_of r =
     (if isLoaded st
      then [Loaded (labels (match curSub st with Some c => as_group c | None => [] end))]
      else []) /\
   state_of r =
     mkState (ws st) (retries st) (timeout st) (numSyncs st) (closedByClient st)
       (subs st) (curSub st) (syncSent st) (syncStarted st) (msg_get msg "sync_id")
       (pendingMsg st) (isLoaded st)).
Proof.
  intros Hid. cbn zeta. unfold processMsg. rewrite Hid.
  destruct (truthy (msg_get msg "complete")); cbn [negb].
  - unfold handleSubFinish. rewrite andThen_normal. cbn.
    split; [reflexivity|]. split; [discriminate|]. intros _.
    rewrite app_nil_r. repeat split.
  - split; [reflexivity|]. split; [|discriminate]. intros _. repeat split.
Qed.

(** Every identifier the engine issues is a truthy string, so a marker that
    echoes one is covered by the above. *)
Lemma toString_truthy (n : nat) : truthy (VStr (toString n)) = true.
Proof.
  unfold toString, NilZero.string_of_uint. cbn [truthy].
  destruct (Nat.to_uint n); reflexivity.
Qed.

(** ** Strings *)

Lemma prefix_refl (s : string) : String.prefix s s = true.
Proof.
  induction s as [|c s IH]; [reflexivity|].
  cbn. destruct (ascii_dec c c); [exact IH | congruence].
Qed.

Lemma includes_refl (s : string) : includes s s = true.
Proof. destruct s; cbn [includes]; rewrite prefix_refl; reflexivity. Qed.

Lemma includes_suffix (g m : string) : includes m (g ++ m) = true.
Proof.
  induction g as [|c g IH]; [apply includes_refl|].
  cbn [append includes]. rewrite IH. apply orb_true_r.
Qed.

Lemma trimEnd_app (g m chars : string) :
  trimEnd m chars = "" -> trimEnd (g ++ m) chars = trimEnd g chars.
Proof.
  intros Hm. induction g as [|c g IH]; [exact Hm|].
  cbn [append trimEnd]. now rewrite IH.
Qed.

Lemma trimEnd_keeps (g chars : string) :
  ends_in g chars = false -> trimEnd g chars = g.
Proof.
  induction g as [|c g IH]; [reflexivity|].
  intros He. cbn [trimEnd]. destruct g as [|c' g'].
  - cbn in *. now rewrite He.
  - rewrite IH by exact He. reflexivity.
Qed.

Lemma trimEnd_group (g : string) :
  ends_in g "_deleted" = false -> trimEnd (g ++ "_deleted") "_deleted" = g.
Proof.
  intros He. rewrite trimEnd_app by reflexivity. now apply trimEnd_keeps.
Qed.

(** ** Objects *)

Lemma obj_get_set_same {V} (o : Obj V) k v :
  obj_get (obj_set o k v) k = Some v.
Proof.
  induction o as [|[k' v'] o IH]; cbn.
  - now rewrite String.eqb_refl.
  - destruct (String.eqb k' k) eqn:E; cbn; rewrite E; [reflexivity | exact IH].
Qed.

Lemma obj_get_set_other {V} (o : Obj V) k k' v :
  k <> k' -> obj_get (obj_set o k v) k' = obj_get o k'.
Proof.
  intros Hne. induction o as [|[k0 v0] o IH]; cbn.
  - destruct (String.eqb k k') eqn:E; [|reflexivity].
    apply String.eqb_eq in E. contradiction.
  - destruct (String.eqb k0 k) eqn:E; cbn.
    + apply String.eqb_eq in E. subst k0.
      destruct (String.eqb k k') eqn:E'; [|reflexivity].
      apply String.eqb_eq in E'. contradiction.
    + now rewrite IH.
Qed.

(** A method call on the cache of a group changes that cache, and the cache
    of no other group. *)
Lemma cache_of_with_keyCache (g : string) (m : KC -> KC) (st : St) :
  cache_of g (with_keyCache g m st) = option_map m (cache_of g st).
Proof.
  unfold cache_of, with_keyCache.
  destruct (curSub st) as [cur|] eqn:Hc; [|now rewrite Hc].
  destruct (obj_get cur g) as [e|] eqn:Hg.
  - cbn. now rewrite obj_get_set_same.
  - rewrite Hc, Hg. reflexivity.
Qed.

Lemma cache_of_with_keyCache_other (g g' : string) (m : KC -> KC) (st : St) :
  g <> g' -> cache_of g' (with_keyCache g m st) = cache_of g' st.
Proof.
  intros Hne. unfold cache_of, with_keyCache.
  destruct (curSub st) as [cur|] eqn:Hc; [|now rewrite Hc].
  destruct (obj_get cur g) as [e|] eqn:Hg.
  - cbn. now rewrite obj_get_set_other.
  - now rewrite Hc.
Qed.

(** ** Delta messages *)

Lemma has_keyCache_with_keyCache k g m (st : St) :
  has_keyCache k (with_keyCache g m st) = has_keyCache k st.
Proof.
  unfold has_keyCache, with_keyCache.
  destruct (curSub st) as [cur|] eqn:Hc; [|now rewrite Hc].
  destruct (obj_get cur g) as [e|] eqn:Hg; [|now rewrite Hc].
  cbn. destruct (string_dec g k) as [<- | Hne].
  - now rewrite obj_get_set_same, Hg.
  - now rewrite obj_get_set_other.
Qed.

Lemma inherited_with_keyCache k g m (st : St) :
  inherited k (with_keyCache g m st) = inherited k st.
Proof.
  unfold inherited, with_keyCache.
  destruct (curSub st) as [cur|] eqn:Hc; [|now rewrite Hc].
  destruct (obj_get cur g) as [e|] eqn:Hg; [|now rewrite Hc].
  cbn. destruct (string_dec g k) as [<- | Hne].
  - now rewrite obj_get_set_same, Hg.
  - now rewrite obj_get_set_other.
Qed.

Lemma throws_on_with_keyCache g m (st : St) kv :
  throws_on StreamEntityMap (with_keyCache g m st) kv = throws_on StreamEntityMap st kv.
Proof.
  unfold throws_on. now rewrite inherited_with_keyCache, has_keyCache_with_keyCache.
Qed.

Lemma dispatchField_passes msg kv (st : St) :
  throws_on StreamEntityMap st kv = false ->
  effects_of (dispatchField StreamEntityMap msg kv st) = [field_effect msg kv] /\
  outcome_of (dispatchField StreamEntityMap msg kv st) = Normal.
Proof.
  intros Hno. destruct (dispatchField_cases msg kv st) as [[Ht _] | [_ [m ->]]];
    [congruence | now split].
Qed.

Lemma dispatchField_throws msg kv (st : St) :
  throws_on StreamEntityMap st kv = true ->
  dispatchField StreamEntityMap msg kv st = (st, [], Thrown TypeError).
Proof.
  intros Hy. destruct (dispatchField_cases msg kv st) as [[_ H] | [Ht _]];
    [exact H | congruence].
Qed.

Lemma throws_on_step msg kv (st : St) f :
  throws_on StreamEntityMap (state_of (dispatchField StreamEntityMap msg kv st)) f =
  throws_on StreamEntityMap st f.
Proof.
  destruct (dispatchField_cases msg kv st) as [[_ ->] | [_ [m ->]]];
    [reflexivity | apply throws_on_with_keyCache].
Qed.

Lemma existsb_throws_on_step msg kv fields (st : St) :
  existsb (throws_on StreamEntityMap (state_of (dispatchField StreamEntityMap msg kv st))) fields =
  existsb (throws_on StreamEntityMap st) fields.
Proof.
  induction fields as [|f rest IH]; [reflexivity|].
  cbn [existsb]. now rewrite IH, throws_on_step.
Qed.

Lemma forOwnField_passes msg fields : forall st : St,
  existsb (throws_on StreamEntityMap st) fields = false ->
  effects_of (forOwnField StreamEntityMap msg fields st) = map (field_effect msg) fields /\
  outcome_of (forOwnField StreamEntityMap msg fields st) = Normal.
Proof.
  induction fields as [|kv rest IH]; intros st Hno; [now split|].
  cbn [existsb] in Hno. apply orb_false_iff in Hno as [Hkv Hrest].
  cbn [forOwnField map].
  destruct (dispatchField_passes msg kv st Hkv) as [He Ho].
  rewrite effects_andThen, outcome_andThen, He, Ho.
  destruct (IH (state_of (dispatchField StreamEntityMap msg kv st))) as [He' Ho'].
  { now rewrite existsb_throws_on_step. }
  now rewrite He', Ho'.
Qed.

Lemma forOwnField_stops msg before : forall (st : St) kv after,
  existsb (throws_on StreamEntityMap st) before = false ->
  throws_on StreamEntityMap st kv = true ->
  forOwnField StreamEntityMap msg (before ++ kv :: after)%list st =
  (state_of (forOwnField StreamEntityMap msg before st),
   map (field_effect msg) before, Thrown TypeError).
Proof.
  induction before as [|f rest IH]; intros st kv after Hno Hkv.
  - cbn [app forOwnField]. now rewrite (dispatchField_throws msg kv st Hkv).
  - cbn [existsb] in Hno. apply orb_false_iff in Hno as [Hf Hrest].
    cbn [app forOwnField map].
    destruct (dispatchField_passes msg f st Hf) as [He Ho].
    destruct (dispatchField StreamEntityMap msg f st) as [[st1 out1] o1] eqn:Hd.
    unfold effects_of, outcome_of in He, Ho. cbn [fst snd] in He, Ho. subst out1 o1.
    rewrite !andThen_normal.
    assert (Hst1 : st1 = state_of (dispatchField StreamEntityMap msg f st))
      by (now rewrite Hd).
    rewrite (IH st1 kv after).
    + reflexivity.
    + rewrite Hst1. now rewrite existsb_throws_on_step.
    + rewrite Hst1. now rewrite throws_on_step.
Qed.

Lemma forEachField_own msg fields (st : St) :
  array_like fields = None ->
  forEachField StreamEntityMap msg fields st = forOwnField StreamEntityMap msg fields st.
Proof. unfold forEachField. now intros ->. Qed.

Lemma forEachField_passes msg fields (st : St) :
  array_like fields = None ->
  existsb (throws_on StreamEntityMap st) fields = false ->
  effects_of (forEachField StreamEntityMap msg fields st) = map (field_effect msg) fields /\
  outcome_of (forEachField StreamEntityMap msg fields st) = Normal.
Proof. intros Ha. rewrite (@forEachField_own msg fields st Ha). apply forOwnField_passes. Qed.

Lemma processMsg_delta msg (st : St) :
  is_marker msg = false ->
  strict_eq (syncSent st) (syncStarted st) = true ->
  processMsg StreamEntityMap msg st = forEachField StreamEntityMap msg msg st.
Proof.
  unfold processMsg, is_marker. intros -> ->. reflexivity.
Qed.

Lemma count_field_effects p msg fields :
  count p (map (field_effect msg) fields) =
  List.length (filter (fun kv => p (field_effect msg kv)) fields).
Proof.
  unfold count. induction fields as [|kv rest IH]; [reflexivity|].
  cbn [map filter]. destruct (p (field_effect msg kv)); cbn [List.length]; now rewrite IH.
Qed.

(** C10, as the code has it.  For a delta message that is not discarded (it
    is no marker and [syncSent === syncStarted]), that has no [length]
    field which makes lodash iterate it as an array, and on none of whose
    fields the callback throws (no entity field of a group with a key cache
    is [null] or [undefined], and no field targets a group that the active
    subscription only inherits from [Object.prototype]), the dispatcher
    ends normally and invokes one callback per field, in the order of the
    fields: the upsert callback once for every field whose name lacks the
    deleted marker, each time with the whole message, and the delete
    callback once for every field whose name has it. *)
Theorem C10_one_upsert_per_field (msg : Obj StreamContent) (st : St) :
  is_marker msg = false ->
  strict_eq (syncSent st) (syncStarted st) = true ->
  array_like msg = None ->
  existsb (throws_on StreamEntityMap st) msg = false ->
  let r := processMsg StreamEntityMap msg st in
  outcome_of r = Normal /\
  effects_of r = map (field_effect msg) msg /\
  count is_upsert (effects_of r) =
    List.length (filter (fun kv => negb (marked (fst kv))) msg) /\
  (forall e, In e (effects_of r) -> is_upsert e = true -> e = Upsert msg) /\
  count is_delete (effects_of r) =
    List.length (filter (fun kv => marked (fst kv)) msg).
Proof.
  intros Hm Heq Ha Hr. cbn zeta. rewrite (processMsg_delta _ _ Hm Heq).
  destruct (@forEachField_passes msg msg st Ha Hr) as [He Ho].
  rewrite He, Ho. split; [reflexivity|]. split; [reflexivity|]. repeat split.
  - rewrite count_field_effects. f_equal. apply filter_ext.
    intros kv. unfold field_effect. now destruct (marked (fst kv)).
  - intros e Hin Hu. apply in_map_iff in Hin as [kv [<- _]].
    unfold field_effect in *. now destruct (marked (fst kv)).
  - rewrite count_field_effects. f_equal. apply filter_ext.
    intros kv. unfold field_effect. now destruct (marked (fst kv)).
Qed.

(** ** What the dispatcher leaves alone *)

(** Dispatching a delta message changes nothing but the key caches inside
    [curSub]. *)
Lemma with_keyCache_frame g m (st : St) :
  set_curSub None (with_keyCache g m st) = set_curSub None st.
Proof.
  unfold with_keyCache. destruct (curSub st) as [cur|]; [|reflexivity].
  destruct (obj_get cur g); reflexivity.
Qed.

Lemma dispatchField_frame msg kv (st : St) :
  set_curSub None (state_of (dispatchField StreamEntityMap msg kv st)) = set_curSub None st.
Proof.
  destruct (dispatchField_cases msg kv st) as [[_ ->] | [_ [m ->]]];
    [reflexivity | apply with_keyCache_frame].
Qed.

Lemma forOwnField_frame msg fields (st : St) :
  set_curSub None (state_of (forOwnField StreamEntityMap msg fields st)) = set_curSub None st.
Proof.
  revert st. induction fields as [|kv rest IH]; intros st; [reflexivity|].
  cbn [forOwnField]. rewrite state_andThen.
  destruct (outcome_of _); [rewrite IH|]; apply dispatchField_frame.
Qed.

Lemma forEachField_frame msg fields (st : St) :
  set_curSub None (state_of (forEachField StreamEntityMap msg fields st)) = set_curSub None st.
Proof.
  destruct (forEachField_cases msg fields st) as [-> | [-> | [_ ->]]];
    [reflexivity | reflexivity | apply forOwnField_frame].
Qed.

Lemma forOwnField_no_loaded msg fields (st : St) :
  filter is_loaded (effects_of (forOwnField StreamEntityMap msg fields st)) = [].
Proof.
  revert st. induction fields as [|kv rest IH]; intros st; [reflexivity|].
  cbn [forOwnField]. rewrite effects_andThen, filter_app.
  assert (Hd : filter is_loaded (effects_of (dispatchField StreamEntityMap msg kv st)) = []).
  { destruct (dispatchField_cases msg kv st) as [[_ ->] | [_ [m ->]]]; [reflexivity|].
    unfold field_effect; cbn. now destruct (marked (fst kv)). }
  rewrite Hd. destruct (outcome_of _); [apply IH | reflexivity].
Qed.

Lemma forEachField_no_loaded msg fields (st : St) :
  filter is_loaded (effects_of (forEachField StreamEntityMap msg fields st)) = [].
Proof.
  destruct (forEachField_cases msg fields st) as [-> | [-> | [_ ->]]];
    [reflexivity | reflexivity | apply forOwnField_no_loaded].
Qed.

Lemma processMsg_isLoaded msg (st : St) :
  isLoaded (state_of (processMsg StreamEntityMap msg st)) = isLoaded st.
Proof.
  unfold processMsg.
  destruct (truthy (msg_get msg "sync_id")).
  - destruct (negb _); reflexivity.
  - destruct (negb _); [reflexivity|].
    pose proof (forEachField_frame msg msg st) as Hf.
    apply (f_equal (@isLoaded Sp KC)) in Hf. exact Hf.
Qed.

(** C2, as the code has it.  When a loaded callback was supplied, the
    dispatcher invokes it exactly once for every message it processes whose
    [sync_id] and [complete] are both truthy, with the labels of the active
    subscription, and for no other message.  The identifier of the marker
    is not compared with [syncSent]. *)
Theorem C2_loaded_once_per_complete_marker (msg : Obj StreamContent) (st : St) :
  isLoaded st = true ->
  filter is_loaded (effects_of (processMsg StreamEntityMap msg st)) =
    (if is_complete_marker msg
     then [Loaded (labels (match curSub st with Some c => as_group c | None => [] end))]
     else []) /\
  forall queue : list (Obj StreamContent),
    outcome_of (processPendingLoop StreamEntityMap (map VObj queue) st) = Normal ->
    count is_loaded (effects_of (processPendingLoop StreamEntityMap (map VObj queue) st)) =
    List.length (filter is_complete_marker queue).
Proof.
  assert (Hone : forall (m : Obj StreamContent) (s : St), isLoaded s = true ->
    filter is_loaded (effects_of (processMsg StreamEntityMap m s)) =
    (if is_complete_marker m
     then [Loaded (labels (match curSub s with Some c => as_group c | None => [] end))]
     else [])).
  { intros m s Hl. unfold processMsg, is_complete_marker, is_marker.
    destruct (truthy (msg_get m "sync_id")); cbn [andb].
    - destruct (truthy (msg_get m "complete")); cbn [negb]; [|reflexivity].
      unfold handleSubFinish. rewrite andThen_normal, Hl. reflexivity.
    - destruct (negb _); [reflexivity | apply forEachField_no_loaded]. }
  intros Hl. split; [now apply Hone|].
  intros queue. revert st Hl.
  induction queue as [|m rest IH]; intros st Hl Hn; [reflexivity|].
  cbn [map processPendingLoop truthy negb processValue] in *.
  rewrite outcome_andThen in Hn. rewrite effects_andThen, count_app.
  destruct (outcome_of (processMsg StreamEntityMap m
                          (set_pendingMsg (map VObj rest) st))) eqn:Ho;
    [|discriminate Hn].
  rewrite IH; [| now rewrite processMsg_isLoaded | exact Hn].
  unfold count at 1. rewrite Hone by exact Hl.
  cbn [filter]. destruct (is_complete_marker m); reflexivity.
Qed.

Lemma inherited_plain k (st : St) :
  is_inherited_name k = false -> inherited k st = false.
Proof.
  intros Hk. unfold inherited. destruct (curSub st) as [cur|]; [|reflexivity].
  destruct (obj_get cur k); [reflexivity | exact Hk].
Qed.

(** C6, as the code has it.  In a delta message that is not discarded, a
    field named [g_deleted] -- for a group name [g] that does not itself
    end in one of the characters of ["_deleted"] and that the active
    subscription does not merely inherit from [Object.prototype] -- is
    decoded, the delete callback is invoked with [g] and the decoded keys,
    and the delete is applied to the key cache of [g].  The dispatcher
    reaches every such field of a message that has no [length] field which
    makes lodash iterate it as an array and on none of whose fields the
    callback throws.  So the message [{"trials_deleted": <encoded [3,4]>}]
    calls [onDelete('trials', [3,4])], and, when the entity table maps the
    tag [trials] to the group [trials], the message
    [{"trials": {"id":3,"seq":10}}] calls [onUpsert] with the whole message
    and upserts [[3]] at sequence 10 into the cache of [trials]; a cache
    that keeps the highest sequence number seen and was at 10 or below is
    then at 10. *)
Theorem C6_delete_upsert_routing (g : string) (v : StreamContent)
    (msg : Obj StreamContent) (st : St) :
  ends_in g "_deleted" = false ->
  strict_eq (syncSent st) (syncStarted st) = true ->
  let upsertM := [("trials", VObj [("id", VNum 3); ("seq", VNum 10)])] in
  (inherited g st = false ->
   dispatchField StreamEntityMap msg (g ++ "_deleted", v) st =
     (with_keyCache g (delete_msg (decode_keys v)) st,
      [Delete g (decode_keys v)], Normal)) /\
  (cache_of g (with_keyCache g (delete_msg (decode_keys v)) st) =
     option_map (delete_msg (decode_keys v)) (cache_of g st)) /\
  (is_marker msg = false -> array_like msg = None ->
   existsb (throws_on StreamEntityMap st) msg = false ->
   In (g ++ "_deleted", v) msg ->
   In (Delete g (decode_keys v)) (effects_of (processMsg StreamEntityMap msg st))) /\
  (decode_keys v = [3; 4]%Z ->
   processMsg StreamEntityMap [("trials_deleted", v)] st =
     (with_keyCache "trials" (delete_msg [3; 4]%Z) st,
      [Delete "trials" [3; 4]%Z], Normal)) /\
  (StreamEntityMap "trials" = Some "trials" ->
   processMsg StreamEntityMap upsertM st =
     (with_keyCache "trials" (upsert [VNum 3] (VNum 10)) st, [Upsert upsertM], Normal) /\
   ((forall ids q kc, maxSeq (upsert ids (VNum q) kc) = Z.max (maxSeq kc) q) ->
    forall kc, cache_of "trials" st = Some kc -> (maxSeq kc <= 10)%Z ->
    option_map maxSeq
      (cache_of "trials" (state_of (processMsg StreamEntityMap upsertM st))) = Some 10%Z)).
Proof.
  intros Hg Heq upsertM.
  assert (Hplain : inherited "trials" st = false) by now apply inherited_plain.
  assert (Hup : StreamEntityMap "trials" = Some "trials" ->
    processMsg StreamEntityMap upsertM st =
      (with_keyCache "trials" (upsert [VNum 3] (VNum 10)) st, [Upsert upsertM], Normal)).
  { intros Hmap. rewrite processMsg_delta by (reflexivity || exact Heq).
    rewrite forEachField_own by reflexivity.
    cbn [forOwnField upsertM]. unfold dispatchField, entity_group.
    cbn [fst snd]. rewrite Hmap, Hplain.
    replace (includes "_deleted" "trials") with false by reflexivity.
    cbn. unfold has_keyCache, with_keyCache.
    destruct (curSub st) as [cur|]; [|reflexivity].
    destruct (obj_get cur "trials"); reflexivity. }
  split; [|split; [apply cache_of_with_keyCache|split; [|split]]].
  - intros Hinh. unfold dispatchField. cbn [fst snd].
    now rewrite includes_suffix, (trimEnd_group _ Hg), Hinh.
  - intros Hm Ha Hr Hin. rewrite processMsg_delta by assumption.
    destruct (@forEachField_passes msg msg st Ha Hr) as [He _]. rewrite He.
    apply in_map_iff. exists (g ++ "_deleted", v). split; [|exact Hin].
    unfold field_effect, marked. cbn [fst snd].
    now rewrite includes_suffix, (trimEnd_group _ Hg).
  - intros Hd. rewrite processMsg_delta by (reflexivity || exact Heq).
    rewrite forEachField_own by reflexivity.
    cbn [forOwnField]. unfold dispatchField. cbn [fst snd].
    replace (includes "_deleted" "trials_deleted") with true by reflexivity.
    replace (trimEnd "trials_deleted" "_deleted") with "trials" by reflexivity.
    rewrite Hd, Hplain. reflexivity.
  - intros Hmap. split; [exact (Hup Hmap)|].
    intros Hlaw kc Hkc Hle. rewrite (Hup Hmap). unfold state_of. cbn [fst].
    rewrite cache_of_with_keyCache, Hkc. cbn [option_map].
    rewrite Hlaw. f_equal. lia.
Qed.

(** ** The sync markers *)

Lemma sendSpec_markers newSub (st : St) :
  syncStarted (state_of (sendSpec newSub st)) = syncStarted st /\
  syncComplete (state_of (sendSpec newSub st)) = syncComplete st.
Proof.
  unfold sendSpec. destruct (fold_left _ _ _) as [[nsc pk] ps]. cbn.
  destruct (ws st); split; reflexivity.
Qed.

Lemma processMsg_syncComplete msg (st : St) :
  syncComplete (state_of (processMsg StreamEntityMap msg st)) =
  if is_complete_marker msg then msg_get msg "sync_id" else syncComplete st.
Proof.
  unfold processMsg, is_complete_marker, is_marker.
  destruct (truthy (msg_get msg "sync_id")); cbn [andb].
  - destruct (truthy (msg_get msg "complete")); reflexivity.
  - destruct (negb _); [reflexivity|].
    pose proof (forEachField_frame msg msg st) as Hf.
    apply (f_equal (@syncComplete Sp KC)) in Hf. exact Hf.
Qed.

Lemma processMsg_syncStarted msg (st : St) :
  syncStarted (state_of (processMsg StreamEntityMap msg st)) =
  if is_start_marker msg then msg_get msg "sync_id" else syncStarted st.
Proof.
  unfold processMsg, is_start_marker, is_marker.
  destruct (truthy (msg_get msg "sync_id")); cbn [andb].
  - destruct (truthy (msg_get msg "complete")); reflexivity.
  - destruct (negb _); [reflexivity|].
    pose proof (forEachField_frame msg msg st) as Hf.
    apply (f_equal (@syncStarted Sp KC)) in Hf. exact Hf.
Qed.

(** Whatever [syncComplete] holds, it held from the beginning or it is the
    identifier of a completion marker processed before. *)
Lemma syncComplete_origin steps : forall (st0 : St) i st,
  nth_error (history StreamEntityMap steps st0) i = Some st ->
  syncComplete st = syncComplete st0 \/
  exists k msg,
    k < i /\ nth_error steps k = Some (StepMsg msg) /\
    is_complete_marker msg = true /\ msg_get msg "sync_id" = syncComplete st.
Proof.
  induction steps as [|s rest IH]; intros st0 i st Hnth.
  - destruct i as [|i]; cbn in Hnth.
    + left. congruence.
    + destruct i; discriminate.
  - destruct i as [|i]; cbn [history nth_error] in Hnth.
    + left. congruence.
    + destruct (IH _ _ _ Hnth) as [Hsame | (k & m & Hk & Hm & Hc & Hid)].
      * destruct s as [newSub | m]; cbn [do_step] in Hsame.
        -- left. rewrite Hsame. apply sendSpec_markers.
        -- rewrite processMsg_syncComplete in Hsame.
           destruct (is_complete_marker m) eqn:Hc.
           ++ right. exists 0, m. repeat split; [lia | exact Hc | congruence].
           ++ left. exact Hsame.
      * right. exists (S k), m. repeat split; [lia | exact Hm | exact Hc | exact Hid].
Qed.

(** The state after a start marker holds its identifier in [syncStarted]. *)
Lemma syncStarted_recorded steps : forall (st0 : St) j msg,
  nth_error steps j = Some (StepMsg msg) ->
  is_start_marker msg = true ->
  exists stj,
    nth_error (history StreamEntityMap steps st0) (S j) = Some stj /\
    syncStarted stj = msg_get msg "sync_id".
Proof.
  induction steps as [|s rest IH]; intros st0 j msg Hj Hs.
  - destruct j; discriminate.
  - destruct j as [|j]; cbn [nth_error] in Hj.
    + injection Hj as ->. cbn [history nth_error].
      exists (do_step StreamEntityMap (StepMsg msg) st0). split.
      * destruct rest; reflexivity.
      * cbn [do_step]. now rewrite processMsg_syncStarted, Hs.
    + destruct (IH (do_step StreamEntityMap s st0) j msg Hj Hs) as (stj & Hn & Hv).
      exists stj. split; [exact Hn | exact Hv].
Qed.

(** C3, as the code has it.  The dispatcher records [syncComplete] from
    every completion marker, started or not.  When the inbound messages
    bring the completion marker of an identifier only after a start marker
    of it, then in every state reached by sends and processed messages
    from a state without [syncComplete], whatever [syncComplete] holds was
    held by [syncStarted] in a strictly earlier state. *)
Theorem C3_started_before_complete (steps : list (Step (Sp := Sp))) (st0 : St)
    (i : nat) (st : St) :
  syncComplete st0 = VUndefined ->
  markers_ordered steps ->
  nth_error (history StreamEntityMap steps st0) i = Some st ->
  syncComplete st <> VUndefined ->
  exists j stj,
    j < i /\ nth_error (history StreamEntityMap steps st0) j = Some stj /\
    syncStarted stj = syncComplete st.
Proof.
  intros Hinit Hord Hnth Hv.
  destruct (syncComplete_origin steps st0 i Hnth) as [Hsame | (k & m & Hk & Hm & Hc & Hid)].
  - congruence.
  - destruct (Hord k m Hm Hc) as (j & m' & Hj & Hm' & Hs & Hid').
    destruct (syncStarted_recorded steps st0 j Hm' Hs) as (stj & Hn & Hst).
    exists (S j), stj. repeat split; [lia | exact Hn | congruence].
Qed.

(** ** Resubscription *)

Lemma drainSubs_skippable queue : forall st : St,
  (forall g, In g queue -> shouldSkip g st = true) ->
  drainSubs queue st =
  (match queue with [] => st | _ => set_subs [] st end,
   (if isLoaded st then map (fun g => Loaded (labels g)) queue else []),
   Normal).
Proof.
  induction queue as [|g rest IH]; intros st Hall.
  - cbn. now destruct (isLoaded st).
  - cbn [drainSubs].
    replace (shouldSkip g (set_subs rest st)) with (shouldSkip g st) by reflexivity.
    rewrite (Hall g (or_introl eq_refl)).
    unfold handleSubFinish. rewrite andThen_normal.
    rewrite IH by (intros g' Hin; apply (Hall g'); now right).
    unfold state_of, effects_of, outcome_of. cbn [fst snd isLoaded set_subs].
    destruct rest, (isLoaded st); reflexivity.
Qed.

Lemma count_sent_loaded (l : list (SubscriptionGroup Sp)) :
  count is_sent (map (fun g => Loaded (labels g)) l) = 0.
Proof. unfold count. induction l; [reflexivity | exact IHl]. Qed.

(** C5.  With the socket open, catch-up of the sync in flight complete
    ([syncComplete === syncSent]) and nothing waiting but entries that the
    active subscription already covers, subscribing with a spec that the
    active spec of its group [equals] sends nothing in the pass that
    follows, and resolves the loaded callback with the label. *)
Theorem C5_idempotent_resubscription (spec : Sp) (label : string) (now : Z) (st : St)
    (cur : Obj (SubscriptionWithCache Sp KC)) (active : SubscriptionWithCache Sp KC) :
  ws st = Some OPEN ->
  closedByClient st = false ->
  pendingMsg st = [] ->
  isLoaded st = true ->
  curSub st = Some cur ->
  obj_get cur (spec_id spec) = Some active ->
  equals (swc_spec active) spec = true ->
  truthy (syncSent st) = true ->
  strict_eq (syncComplete st) (syncSent st) = true ->
  (forall g, In g (subs st) -> shouldSkip g st = true) ->
  label <> "" ->
  let r := subscribe StreamEntityMap spec (Some label) now st in
  r = (set_subs [] st,
       (map (fun g => Loaded (labels g)) (subs st) ++ [Loaded [label]])%list,
       Normal) /\
  count is_sent (effects_of r) = 0.
Proof.
  intros Hws Hcl Hp Hl Hcur Hact Heq Hsent Hdone Hq Hlab.
  set (entry := [(spec_id spec, {| sub_spec := spec; sub_id := Some label |})]).
  assert (Hskip : shouldSkip entry st = true).
  { unfold shouldSkip. rewrite Hcur. cbn. now rewrite Hact, Heq. }
  assert (Hr : subscribe StreamEntityMap spec (Some label) now st =
    (set_subs [] st,
     (map (fun g => Loaded (labels g)) (subs st) ++ [Loaded [label]])%list, Normal)).
  { unfold subscribe, advance. cbn [closedByClient set_subs ws]. rewrite Hcl, Hws.
    unfold ret. rewrite andThen_normal. cbn [state_of effects_of outcome_of fst snd ws set_subs].
    rewrite Hws. unfold processPending. cbn [pendingMsg set_subs]. rewrite Hp.
    cbn [processPendingLoop]. unfold ret. rewrite andThen_normal.
    unfold processSubscription. cbn [curSub subs syncSent syncComplete set_subs].
    rewrite Hcur, Hsent, Hdone. cbn [negb].
    fold entry.
    replace (match (subs st ++ [entry])%list with
             | [] | _ => drainSubs (subs st ++ [entry]) (set_subs (subs st ++ [entry]) st)
             end) with (drainSubs (subs st ++ [entry]) (set_subs (subs st ++ [entry]) st))
      by (destruct (subs st ++ [entry])%list; reflexivity).
    rewrite drainSubs_skippable.
    - unfold state_of, effects_of, outcome_of. cbn [fst snd isLoaded set_subs app].
      rewrite Hl, map_app. cbn [map].
      assert (Hlabels : labels entry = [label]).
      { unfold labels, entry. cbn.
        destruct (String.eqb label "") eqn:E; [|reflexivity].
        apply String.eqb_eq in E. contradiction. }
      rewrite Hlabels. destruct (subs st); reflexivity.
    - intros g Hin. apply in_app_or in Hin as [Hin | [<- | []]].
      + exact (Hq g Hin).
      + exact Hskip. }
  cbn zeta. split; [exact Hr|].
  rewrite Hr. unfold effects_of. cbn [fst snd].
  rewrite count_app, count_sent_loaded. reflexivity.
Qed.

(** ** Reconnecting *)

Lemma onclose_scheduled now (st : St) b :
  nth_error backoffs (retries st) = Some b ->
  onclose now st =
  (set_retries (S (retries st))
     (set_timeout (now + b * 1000)%Z (set_syncSent VUndefined (set_ws (Some CLOSED) st))),
   [SetTimeout (b * 1000)%Z], Normal).
Proof. intros Hb. unfold onclose. cbn [retries set_syncSent set_ws]. now rewrite Hb. Qed.

Lemma disconnect_cycle_retries now (st : St) :
  retries st < List.length backoffs ->
  outcome_of (disconnect_cycle StreamEntityMap now st) = Normal /\
  retries (state_of (disconnect_cycle StreamEntityMap now st)) = S (retries st).
Proof.
  intros Hlt. destruct (nth_error backoffs (retries st)) as [b|] eqn:Hb.
  2:{ apply nth_error_None in Hb. lia. }
  unfold disconnect_cycle. rewrite (onclose_scheduled now st Hb), andThen_normal.
  unfold advance.
  cbn [closedByClient ws timeout set_retries set_timeout set_syncSent set_ws].
  rewrite Z.ltb_irrefl.
  destruct (closedByClient st); split; reflexivity.
Qed.

Lemma disconnects_retries times : forall st : St,
  retries st + List.length times <= List.length backoffs ->
  outcome_of (disconnects StreamEntityMap times st) = Normal /\
  retries (state_of (disconnects StreamEntityMap times st)) = retries st + List.length times.
Proof.
  induction times as [|now rest IH]; intros st Hle.
  - cbn. split; [reflexivity | lia].
  - cbn [List.length] in Hle. cbn [disconnects].
    destruct (disconnect_cycle_retries now st) as [Ho Hr]; [lia|].
    rewrite outcome_andThen, state_andThen, Ho.
    destruct (IH (state_of (disconnect_cycle StreamEntityMap now st))) as [Ho' Hr'];
      [rewrite Hr; lia|].
    split; [exact Ho'|]. rewrite Hr', Hr. cbn [List.length]. lia.
Qed.

(** C7.  After consecutive immediate disconnects that began with the retry
    counter at zero, the next disconnect schedules the reconnect with the
    entry of the backoff table at that position, in seconds; once there
    were as many as the table has entries, the next one throws and
    schedules nothing. *)
Theorem C7_backoff_table_then_fatal (times : list Z) (now : Z) (st : St) :
  retries st = 0 ->
  let before := disconnects StreamEntityMap times st in
  (forall b, nth_error backoffs (List.length times) = Some b ->
     outcome_of before = Normal /\
     effects_of (onclose now (state_of before)) = [SetTimeout (b * 1000)%Z] /\
     outcome_of (onclose now (state_of before)) = Normal) /\
  (List.length times = List.length backoffs ->
     outcome_of before = Normal /\
     effects_of (onclose now (state_of before)) = [] /\
     outcome_of (onclose now (state_of before)) = Thrown CannotReconnect).
Proof.
  intros H0. cbn zeta. split.
  - intros b Hb.
    assert (Hlt : List.length times < List.length backoffs).
    { apply nth_error_Some. congruence. }
    destruct (disconnects_retries times st) as [Ho Hr]; [lia|].
    split; [exact Ho|].
    rewrite onclose_scheduled with (b := b) by (rewrite Hr, H0; exact Hb).
    split; reflexivity.
  - intros Hlen.
    destruct (disconnects_retries times st) as [Ho Hr]; [lia|].
    split; [exact Ho|].
    unfold onclose. cbn [retries set_syncSent set_ws].
    rewrite Hr, H0, Hlen. split; reflexivity.
Qed.

(** ** Resending after a reconnect *)

(** What the pass after a reconnect does when the markers say that the
    active subscription is unfinished: it sends the active subscription and
    leaves the queue alone. *)
Lemma processSubscription_resend (st : St) cur :
  curSub st = Some cur ->
  truthy (syncSent st) = false ->
  truthy (syncComplete st) = false \/
    strict_eq (syncStarted st) (syncComplete st) = false ->
  processSubscription st = sendSpec (as_group cur) st.
Proof.
  intros Hc Hs Hun. unfold processSubscription. rewrite Hc, Hs. cbn [negb].
  assert (Hor : negb (truthy (syncComplete st))
                || negb (strict_eq (syncStarted st) (syncComplete st)) = true).
  { destruct Hun as [-> | ->]; [reflexivity | apply orb_true_r]. }
  rewrite Hor. destruct (subs st); reflexivity.
Qed.

(** What it does when the markers of an earlier sync are still in place:
    the active subscription is not sent again, whether or not the last
    send was ever answered. *)
Lemma processSubscription_no_resend (st : St) cur :
  curSub st = Some cur ->
  truthy (syncSent st) = false ->
  truthy (syncComplete st) = true ->
  strict_eq (syncStarted st) (syncComplete st) = true ->
  subs st = [] ->
  processSubscription st = ret st.
Proof.
  intros Hc Hs Hd He Hq. unfold processSubscription.
  rewrite Hc, Hs, Hd, He, Hq. reflexivity.
Qed.

(** ** One send, one identifier *)

Lemma processMsg_ws_numSyncs msg (st : St) :
  ws (state_of (processMsg StreamEntityMap msg st)) = ws st /\
  numSyncs (state_of (processMsg StreamEntityMap msg st)) = numSyncs st.
Proof.
  unfold processMsg.
  destruct (truthy (msg_get msg "sync_id")).
  - destruct (negb _); split; reflexivity.
  - destruct (negb _); [split; reflexivity|].
    pose proof (forEachField_frame msg msg st) as Hf.
    split; [apply (f_equal (@ws Sp KC)) in Hf | apply (f_equal (@numSyncs Sp KC)) in Hf];
      exact Hf.
Qed.

Lemma processValue_ws_numSyncs v (st : St) :
  ws (state_of (processValue StreamEntityMap v st)) = ws st /\
  numSyncs (state_of (processValue StreamEntityMap v st)) = numSyncs st.
Proof.
  destruct (processValue_cases v st) as [-> | [-> | [fields [_ ->]]]];
    [split; reflexivity | split; reflexivity | apply processMsg_ws_numSyncs].
Qed.

Lemma processPendingLoop_ws_numSyncs queue : forall st : St,
  ws (state_of (processPendingLoop StreamEntityMap queue st)) = ws st /\
  numSyncs (state_of (processPendingLoop StreamEntityMap queue st)) = numSyncs st.
Proof.
  induction queue as [|msg rest IH]; intros st; [split; reflexivity|].
  cbn [processPendingLoop]. destruct (negb (truthy msg)); [split; reflexivity|].
  rewrite state_andThen.
  destruct (processValue_ws_numSyncs msg (set_pendingMsg rest st)) as [Hw Hn].
  destruct (outcome_of _).
  - destruct (IH (state_of (processValue StreamEntityMap msg (set_pendingMsg rest st))))
      as [Hw' Hn'].
    split; [now rewrite Hw', Hw | now rewrite Hn', Hn].
  - split; [exact Hw | exact Hn].
Qed.

(** A send on an existing socket takes the next identifier, puts it in the
    payload and in [syncSent]. *)
Lemma sendSpec_sends newSub (st : St) r :
  ws st = Some r ->
  exists p_known p_subscribe,
    effects_of (sendSpec newSub st) =
      [Sent (VObj [("known", VObj p_known); ("subscribe", VObj p_subscribe);
                   ("sync_id", VStr (toString (S (numSyncs st))))])] /\
    outcome_of (sendSpec newSub st) = Normal /\
    numSyncs (state_of (sendSpec newSub st)) = S (numSyncs st) /\
    syncSent (state_of (sendSpec newSub st)) = VStr (toString (S (numSyncs st))).
Proof.
  intros Hws. unfold sendSpec.
  destruct (fold_left _ _ _) as [[nsc pk] ps]. cbn [ws set_curSub set_numSyncs].
  rewrite Hws. exists pk, ps. repeat split.
Qed.

Lemma sendSpec_counts newSub (st : St) r :
  ws st = Some r ->
  numSyncs (state_of (sendSpec newSub st)) =
  numSyncs st + count is_sent (effects_of (sendSpec newSub st)).
Proof.
  intros Hws. destruct (sendSpec_sends newSub st Hws) as (pk & ps & He & _ & Hn & _).
  rewrite He, Hn. cbn. lia.
Qed.

Lemma drainSubs_counts queue : forall (st : St) r,
  ws st = Some r ->
  numSyncs (state_of (drainSubs queue st)) =
  numSyncs st + count is_sent (effects_of (drainSubs queue st)).
Proof.
  induction queue as [|spec rest IH]; intros st r Hws; [cbn; lia|].
  cbn [drainSubs]. destruct (shouldSkip spec _).
  - rewrite state_andThen, effects_andThen, count_app, handleSubFinish_no_sent.
    cbn [outcome_of handleSubFinish snd state_of fst].
    rewrite (IH (set_subs rest st) r Hws). reflexivity.
  - rewrite (sendSpec_counts spec (set_subs rest st) (r := r) Hws). reflexivity.
Qed.

Lemma processSubscription_counts (st : St) r :
  ws st = Some r ->
  numSyncs (state_of (processSubscription st)) =
  numSyncs st + count is_sent (effects_of (processSubscription st)).
Proof.
  intros Hws. unfold processSubscription.
  assert (Hret : numSyncs (state_of (ret st)) =
                 numSyncs st + count is_sent (effects_of (ret st))) by (cbn; lia).
  assert (Hshift :
    numSyncs (state_of match subs st with
                       | [] => ret st
                       | spec :: rest => sendSpec spec (set_subs rest st)
                       end) =
    numSyncs st + count is_sent (effects_of match subs st with
                       | [] => ret st
                       | spec :: rest => sendSpec spec (set_subs rest st)
                       end)).
  { destruct (subs st) as [|spec rest]; [exact Hret|].
    exact (sendSpec_counts spec (set_subs rest st) (r := r) Hws). }
  destruct (curSub st) as [c|].
  - destruct (subs st) eqn:Hs;
      (destruct (negb (truthy (syncSent st)));
       [ destruct (_ || _); [exact (sendSpec_counts _ st Hws) | exact Hshift]
       | destruct (negb (strict_eq _ _)); [exact Hret | exact (drainSubs_counts _ st Hws)] ]).
  - destruct (subs st) eqn:Hs; [exact Hret|].
    destruct (negb (truthy (syncSent st)));
      [exact (sendSpec_counts _ (set_subs l st) (r := r) Hws)|].
    destruct (negb (strict_eq _ _)); [exact Hret | exact (drainSubs_counts _ st Hws)].
Qed.

(** X15.  The loop that drains the queue reports the entries it can skip and
    stops at the first one it cannot: that one is sent, and what was
    queued behind it stays queued. *)
Lemma drainSubs_stops_at_first skipped spec rest : forall st : St,
  (forall g, In g skipped -> shouldSkip g st = true) ->
  shouldSkip spec st = false ->
  drainSubs (skipped ++ spec :: rest) st =
  (state_of (sendSpec spec (set_subs rest st)),
   ((if isLoaded st then map (fun g => Loaded (labels g)) skipped else []) ++
    effects_of (sendSpec spec (set_subs rest st)))%list,
   outcome_of (sendSpec spec (set_subs rest st))).
Proof.
  induction skipped as [|g skipped IH]; intros st Hall Hno.
  - cbn [app drainSubs].
    replace (shouldSkip spec (set_subs rest st)) with (shouldSkip spec st) by reflexivity.
    rewrite Hno. destruct (sendSpec spec (set_subs rest st)) as [[s o] oc].
    now destruct (isLoaded st).
  - cbn [app drainSubs].
    replace (shouldSkip g (set_subs (skipped ++ spec :: rest) st))
      with (shouldSkip g st) by reflexivity.
    rewrite (Hall g (or_introl eq_refl)).
    unfold handleSubFinish. rewrite andThen_normal.
    rewrite IH; [| intros g' Hin; apply (Hall g'); now right | exact Hno].
    unfold state_of, effects_of, outcome_of. cbn [fst snd isLoaded set_subs].
    destruct (isLoaded st); reflexivity.
Qed.

(** C8.  Whatever the state, one pass of [#advance] calls [ws.send] at most
    once, and takes a new sync identifier exactly when it does: the
    dispatcher never sends, the branch taken after a connect or reconnect
    returns after its send, and the loop that drains the queue returns at
    the first entry it sends. *)
Theorem C8_one_send_per_advance (now : Z) (st : St) :
  count is_sent (effects_of (advance StreamEntityMap now st)) <= 1 /\
  numSyncs (state_of (advance StreamEntityMap now st)) =
    numSyncs st + count is_sent (effects_of (advance StreamEntityMap now st)).
Proof.
  assert (Hrec : forall st0 : St,
    let r :=
      andThen
         match ws st0 with
         | None => (set_ws (Some CONNECTING) st0, [Connect], Normal)
         | Some _ => ret st0
         end
         (fun st1 =>
            match ws st1 with
            | Some OPEN =>
                andThen (processPending StreamEntityMap st1) processSubscription
            | _ => ret st1
            end) in
    count is_sent (effects_of r) <= 1 /\
    numSyncs (state_of r) = numSyncs st0 + count is_sent (effects_of r)).
  { intros st0. cbn zeta. destruct (ws st0) as [r|] eqn:Hws.
    - unfold ret. rewrite andThen_normal.
      cbn [state_of effects_of outcome_of fst snd app].
      rewrite Hws. destruct r; try (cbn; lia).
      rewrite effects_andThen, state_andThen, count_app.
      unfold processPending. rewrite processPendingLoop_no_sent.
      destruct (processPendingLoop_ws_numSyncs (pendingMsg st0) st0) as [Hw Hn].
      destruct (outcome_of _).
      + split; [apply processSubscription_sent_le|].
        rewrite (processSubscription_counts _ (r := OPEN)) by (now rewrite Hw).
        rewrite Hn. reflexivity.
      + cbn. split; [lia | rewrite Hn; lia].
    - rewrite andThen_normal. cbn. lia. }
  unfold advance.
  destruct (closedByClient st).
  - destruct (ws st) as [[]|]; cbn; lia.
  - pose proof (Hrec st) as Hst. cbn zeta in Hst.
    destruct (ws st) as [[]|] eqn:Hws; try exact Hst.
    destruct (now <? timeout st)%Z; [cbn; lia | apply (Hrec (set_ws None st))].
Qed.

(** ** Sending the active subscription again *)

Lemma obj_get_in_nodup {V} (o : Obj V) k v :
  NoDup (map fst o) -> In (k, v) o -> obj_get o k = Some v.
Proof.
  induction o as [|[k' v'] o IH]; intros Hnd Hin; [destruct Hin|].
  cbn in Hnd. inversion Hnd as [|? ? Hnotin Hnd']; subst.
  cbn. destruct Hin as [Heq | Hin].
  - injection Heq as -> ->. now rewrite String.eqb_refl.
  - destruct (String.eqb k' k) eqn:E.
    + apply String.eqb_eq in E. subst k'. exfalso. apply Hnotin.
      apply in_map_iff. exists (k, v). split; [reflexivity | exact Hin].
    + now apply IH.
Qed.

Lemma obj_set_same {V} (o : Obj V) k v :
  obj_get o k = Some v -> obj_set o k v = o.
Proof.
  induction o as [|[k' v'] o IH]; intros Hg; [discriminate Hg|].
  cbn in *. destruct (String.eqb k' k) eqn:E.
  - injection Hg as ->. reflexivity.
  - now rewrite IH.
Qed.

Lemma obj_set_fresh {V} (o : Obj V) k v :
  ~ In k (map fst o) -> obj_set o k v = (o ++ [(k, v)])%list.
Proof.
  induction o as [|[k' v'] o IH]; intros Hn; [reflexivity|].
  cbn in *. destruct (String.eqb k' k) eqn:E.
  - apply String.eqb_eq in E. subst k'. exfalso. apply Hn. now left.
  - rewrite IH; [reflexivity|]. intros Hin. apply Hn. now right.
Qed.

Lemma obj_spread_covered {V} (a b : Obj V) :
  (forall kv, In kv b -> obj_get a (fst kv) = Some (snd kv)) -> obj_spread a b = a.
Proof.
  unfold obj_spread. induction b as [|kv b IH]; intros Hall; [reflexivity|].
  cbn [fold_left]. rewrite obj_set_same by (apply Hall; now left).
  apply IH. intros kv' Hin. apply Hall. now right.
Qed.

Lemma as_group_keys (c : Obj (SubscriptionWithCache Sp KC)) :
  map fst (as_group c) = map fst c.
Proof. unfold as_group. rewrite map_map. reflexivity. Qed.

Lemma obj_spread_as_group (c : Obj (SubscriptionWithCache Sp KC)) :
  NoDup (map fst c) -> obj_spread (as_group c) (as_group c) = as_group c.
Proof.
  intros Hnd. apply obj_spread_covered. intros [k v] Hin. cbn [fst snd].
  apply obj_get_in_nodup; [now rewrite as_group_keys | exact Hin].
Qed.

Lemma sendSpec_fold_active (cur : Obj (SubscriptionWithCache Sp KC)) :
  well_keyed cur ->
  forall rest done,
    (done ++ rest)%list = cur ->
    fold_left (sendSpec_step (Some cur)) (obj_values (as_group rest))
      (done,
       map (fun kv => (fst kv, known (keyCache (snd kv)))) done,
       map (fun kv =>
              (fst kv,
               VObj (obj_set (toWire (swc_spec (snd kv))) "since"
                       (VNum (maxSeq (keyCache (snd kv))))))) done) =
    (cur,
     map (fun kv => (fst kv, known (keyCache (snd kv)))) cur,
     map (fun kv =>
            (fst kv,
             VObj (obj_set (toWire (swc_spec (snd kv))) "since"
                     (VNum (maxSeq (keyCache (snd kv))))))) cur).
Proof.
  intros [Hnd Hkey]. induction rest as [|[k e] rest IH]; intros done Hsplit.
  - rewrite app_nil_r in Hsplit. subst done. reflexivity.
  - assert (Hin : In (k, e) cur).
    { rewrite <- Hsplit. apply in_or_app. right. now left. }
    assert (Hk : spec_id (swc_spec e) = k) by (symmetry; now apply Hkey).
    assert (Hget : obj_get cur k = Some e) by (now apply obj_get_in_nodup).
    assert (Hfresh : ~ In k (map fst done)).
    { rewrite <- Hsplit, map_app in Hnd. cbn [map fst] in Hnd.
      apply NoDup_remove_2 in Hnd. intros Hd. apply Hnd.
      apply in_or_app. now left. }
    cbn [as_group map obj_values fold_left snd fst].
    unfold sendSpec_step at 2. cbn [forget_cache sub_spec sub_id].
    rewrite Hk, Hget.
    rewrite !obj_set_fresh by (rewrite ?map_map; exact Hfresh).
    replace {| swc_spec := swc_spec e; swc_id := swc_id e; keyCache := keyCache e |}
      with e by (destruct e; reflexivity).
    specialize (IH (done ++ [(k, e)])%list).
    rewrite !map_app in IH. cbn [map fst snd] in IH.
    apply IH. rewrite <- app_assoc. exact Hsplit.
Qed.

(** Sending the active subscription itself leaves it as it is, key caches
    included, and announces it under the next identifier. *)
Lemma sendSpec_active (st : St) cur r :
  curSub st = Some cur ->
  well_keyed cur ->
  ws st = Some r ->
  sendSpec (as_group cur) st =
  (set_syncSent (VStr (toString (S (numSyncs st))))
     (set_curSub (Some cur) (set_numSyncs (S (numSyncs st)) st)),
   [Sent (payload_of cur (toString (S (numSyncs st))))], Normal).
Proof.
  intros Hc Hwk Hws. unfold sendSpec. rewrite Hc.
  rewrite obj_spread_as_group by (apply Hwk).
  pose proof (sendSpec_fold_active Hwk cur [] eq_refl) as Hf.
  cbn [map] in Hf. rewrite Hf.
  cbn [ws set_curSub set_numSyncs]. rewrite Hws. reflexivity.
Qed.

(** What [#sendSpec] adopts as the active subscription is well keyed. *)
Lemma obj_set_keys {V} (o : Obj V) k v :
  map fst (obj_set o k v) =
  if existsb (String.eqb k) (map fst o) then map fst o else (map fst o ++ [k])%list.
Proof.
  induction o as [|[k' v'] o IH]; [reflexivity|].
  cbn. rewrite (String.eqb_sym k k'). destruct (String.eqb k' k) eqn:E; [reflexivity|].
  cbn. rewrite IH. now destruct (existsb _ _).
Qed.

Lemma obj_set_NoDup {V} (o : Obj V) k v :
  NoDup (map fst o) -> NoDup (map fst (obj_set o k v)).
Proof.
  intros Hnd. rewrite obj_set_keys.
  destruct (existsb (String.eqb k) (map fst o)) eqn:E; [exact Hnd|].
  apply NoDup_app; [exact Hnd | repeat constructor; intros [] |].
  intros x Hin [Hx | []]. subst x.
  assert (Hex : existsb (String.eqb k) (map fst o) = true).
  { apply existsb_exists. exists k. split; [exact Hin | apply String.eqb_refl]. }
  congruence.
Qed.

Lemma obj_set_in {V} (o : Obj V) k v k' v' :
  In (k', v') (obj_set o k v) -> In (k', v') o \/ (k', v') = (k, v).
Proof.
  induction o as [|[k0 v0] o IH]; cbn.
  - intros [H | []]. right. now symmetry.
  - destruct (String.eqb k0 k) eqn:E; cbn.
    + apply String.eqb_eq in E. subst k0.
      intros [H | H]; [right; now symmetry | left; now right].
    + intros [H | H]; [left; now left|].
      destruct (IH H) as [H' | H']; [left; now right | now right].
Qed.

Lemma sendSpec_well_keyed newSub (st : St) cur' :
  curSub (state_of (sendSpec newSub st)) = Some cur' -> well_keyed cur'.
Proof.
  unfold sendSpec.
  set (whole := obj_values _).
  assert (Hfold : forall l acc,
    well_keyed (fst (fst acc)) ->
    well_keyed (fst (fst (fold_left (sendSpec_step (curSub st)) l acc)))).
  { induction l as [|ent l IH]; intros [[nsc pk] ps] Hwk; [exact Hwk|].
    cbn [fold_left]. apply IH. cbn [sendSpec_step fst].
    destruct Hwk as [Hnd Hkey]. cbn [fst] in Hnd, Hkey. split.
    - now apply obj_set_NoDup.
    - intros k e Hin. apply obj_set_in in Hin as [Hin | Heq].
      + now apply Hkey.
      + injection Heq as -> ->. reflexivity. }
  specialize (Hfold whole ([], [], [])).
  destruct (fold_left _ whole _) as [[nsc pk] ps]. cbn [fst] in Hfold.
  assert (Hnil : well_keyed (@nil (string * SubscriptionWithCache Sp KC))).
  { split; [constructor | intros k e []]. }
  specialize (Hfold Hnil).
  cbn [ws set_curSub set_numSyncs].
  destruct (ws st); cbn; intros Heq; injection Heq as <-; exact Hfold.
Qed.

(** The pass after a reconnect, when the markers show the active
    subscription as unfinished: exactly the active subscription goes out
    again, unchanged with its key caches, and the queue is not touched. *)
Lemma processSubscription_resend_active (st : St) cur r :
  curSub st = Some cur ->
  well_keyed cur ->
  ws st = Some r ->
  truthy (syncSent st) = false ->
  truthy (syncComplete st) = false \/
    strict_eq (syncStarted st) (syncComplete st) = false ->
  let r := processSubscription st in
  effects_of r = [Sent (payload_of cur (toString (S (numSyncs st))))] /\
  curSub (state_of r) = Some cur /\
  subs (state_of r) = subs st.
Proof.
  intros Hc Hwk Hws Hs Hun. cbn zeta.
  rewrite (processSubscription_resend st Hc Hs Hun).
  rewrite (sendSpec_active st Hc Hwk Hws). repeat split.
Qed.

(** * Further properties *)

(** ** What the dispatcher can and cannot change *)

Lemma as_group_obj_set (cur : Obj (SubscriptionWithCache Sp KC)) g e e' :
  obj_get cur g = Some e ->
  forget_cache e' = forget_cache e ->
  as_group (obj_set cur g e') = as_group cur.
Proof.
  intros Hg Hf. unfold as_group.
  induction cur as [|[k0 v0] cur IH]; [discriminate Hg|].
  cbn in *. destruct (String.eqb k0 g) eqn:E.
  - injection Hg as ->. cbn. now rewrite Hf.
  - cbn. now rewrite IH.
Qed.

Lemma with_keyCache_as_group g m (st : St) :
  option_map as_group (curSub (with_keyCache g m st)) = option_map as_group (curSub st).
Proof.
  unfold with_keyCache. destruct (curSub st) as [cur|] eqn:Hc; [|now rewrite Hc].
  destruct (obj_get cur g) as [e|] eqn:Hg; [|now rewrite Hc].
  cbn. f_equal. now apply as_group_obj_set with (e := e).
Qed.

Lemma dispatchField_as_group msg kv (st : St) :
  option_map as_group (curSub (state_of (dispatchField StreamEntityMap msg kv st))) =
  option_map as_group (curSub st).
Proof.
  destruct (dispatchField_cases msg kv st) as [[_ ->] | [_ [m ->]]];
    [reflexivity | apply with_keyCache_as_group].
Qed.

Lemma forOwnField_as_group msg fields : forall st : St,
  option_map as_group (curSub (state_of (forOwnField StreamEntityMap msg fields st))) =
  option_map as_group (curSub st).
Proof.
  induction fields as [|kv rest IH]; intros st; [reflexivity|].
  cbn [forOwnField]. rewrite state_andThen.
  destruct (outcome_of _); [rewrite IH|]; apply dispatchField_as_group.
Qed.

Lemma forEachField_as_group msg fields (st : St) :
  option_map as_group (curSub (state_of (forEachField StreamEntityMap msg fields st))) =
  option_map as_group (curSub st).
Proof.
  destruct (forEachField_cases msg fields st) as [-> | [-> | [_ ->]]];
    [reflexivity | reflexivity | apply forOwnField_as_group].
Qed.

Lemma processMsg_as_group msg (st : St) :
  option_map as_group (curSub (state_of (processMsg StreamEntityMap msg st))) =
  option_map as_group (curSub st).
Proof.
  unfold processMsg.
  destruct (truthy (msg_get msg "sync_id")).
  - destruct (negb _); reflexivity.
  - destruct (negb _); [reflexivity | apply forEachField_as_group].
Qed.

Lemma processMsg_untouched msg (st : St) :
  let st' := state_of (processMsg StreamEntityMap msg st) in
  (ws st', retries st', timeout st', numSyncs st', closedByClient st',
   subs st', syncSent st', pendingMsg st', isLoaded st') =
  (ws st, retries st, timeout st, numSyncs st, closedByClient st,
   subs st, syncSent st, pendingMsg st, isLoaded st).
Proof.
  cbn zeta. unfold processMsg.
  destruct (truthy (msg_get msg "sync_id")).
  - destruct (negb _); reflexivity.
  - destruct (negb _); [reflexivity|].
    pose proof (forEachField_frame msg msg st) as Hf.
    set (st' := state_of (forEachField StreamEntityMap msg msg st)) in *.
    change (ws st') with (ws (set_curSub None st')).
    change (retries st') with (retries (set_curSub None st')).
    change (timeout st') with (timeout (set_curSub None st')).
    change (numSyncs st') with (numSyncs (set_curSub None st')).
    change (closedByClient st') with (closedByClient (set_curSub None st')).
    change (subs st') with (subs (set_curSub None st')).
    change (syncSent st') with (syncSent (set_curSub None st')).
    change (pendingMsg st') with (pendingMsg (set_curSub None st')).
    change (isLoaded st') with (isLoaded (set_curSub None st')).
    rewrite Hf. reflexivity.
Qed.

Lemma processValue_as_group v (st : St) :
  option_map as_group (curSub (state_of (processValue StreamEntityMap v st))) =
  option_map as_group (curSub st).
Proof.
  destruct (processValue_cases v st) as [-> | [-> | [fields [_ ->]]]];
    [reflexivity | reflexivity | apply processMsg_as_group].
Qed.

Lemma processValue_untouched v (st : St) :
  let st' := state_of (processValue StreamEntityMap v st) in
  (ws st', retries st', timeout st', numSyncs st', closedByClient st',
   subs st', syncSent st', pendingMsg st', isLoaded st') =
  (ws st, retries st, timeout st, numSyncs st, closedByClient st,
   subs st, syncSent st, pendingMsg st, isLoaded st).
Proof.
  destruct (processValue_cases v st) as [-> | [-> | [fields [_ ->]]]];
    [reflexivity | reflexivity | apply processMsg_untouched].
Qed.

(** X1.  The dispatcher leaves the socket, the counters, the queue of
    subscriptions and [syncSent] as they are, and in the active
    subscription it changes key caches only: the groups, their specs and
    their labels stay. *)
Theorem processPending_changes_caches_and_markers_only (st : St) :
  let st' := state_of (processPending StreamEntityMap st) in
  ws st' = ws st /\ retries st' = retries st /\ timeout st' = timeout st /\
  numSyncs st' = numSyncs st /\ closedByClient st' = closedByClient st /\
  subs st' = subs st /\ syncSent st' = syncSent st /\ isLoaded st' = isLoaded st /\
  option_map as_group (curSub st') = option_map as_group (curSub st).
Proof.
  cbn zeta. unfold processPending. generalize (pendingMsg st) as queue.
  intros queue. revert st. induction queue as [|msg rest IH]; intros st.
  - cbn. repeat split.
  - cbn [processPendingLoop]. destruct (negb (truthy msg)); [cbn; repeat split|].
    rewrite state_andThen.
    pose proof (processValue_untouched msg (set_pendingMsg rest st)) as Hu.
    pose proof (processValue_as_group msg (set_pendingMsg rest st)) as Hg.
    cbn zeta in Hu. cbn [ws retries timeout numSyncs closedByClient subs syncSent
                         pendingMsg isLoaded curSub set_pendingMsg] in Hu, Hg.
    injection Hu as Hws Hre Hti Hnu Hcl Hsu Hse _ Hlo.
    destruct (outcome_of _).
    + destruct (IH (state_of (processValue StreamEntityMap msg (set_pendingMsg rest st))))
        as (H1 & H2 & H3 & H4 & H5 & H6 & H7 & H8 & H9).
      repeat split; congruence.
    + repeat split; assumption.
Qed.

(** ** The queue of pending messages *)

(** Nothing in the body of the loop reads the queue. *)
Lemma dispatchField_requeue q msg kv (st : St) :
  dispatchField StreamEntityMap msg kv (set_pendingMsg q st) =
  (set_pendingMsg q (state_of (dispatchField StreamEntityMap msg kv st)),
   effects_of (dispatchField StreamEntityMap msg kv st),
   outcome_of (dispatchField StreamEntityMap msg kv st)).
Proof.
  unfold dispatchField, inherited, has_keyCache, with_keyCache.
  cbn [curSub set_pendingMsg].
  destruct (includes "_deleted" (fst kv)).
  - destruct (curSub st) as [cur|]; [|reflexivity].
    destruct (obj_get cur _); [reflexivity|].
    destruct (is_inherited_name _); reflexivity.
  - destruct (curSub st) as [cur|]; [|reflexivity].
    destruct (obj_get cur _).
    + destruct (get_prop (snd kv) "id"), (get_prop (snd kv) "seq"); reflexivity.
    + destruct (is_inherited_name _); reflexivity.
Qed.

Lemma forOwnField_requeue q msg fields : forall st : St,
  forOwnField StreamEntityMap msg fields (set_pendingMsg q st) =
  (set_pendingMsg q (state_of (forOwnField StreamEntityMap msg fields st)),
   effects_of (forOwnField StreamEntityMap msg fields st),
   outcome_of (forOwnField StreamEntityMap msg fields st)).
Proof.
  induction fields as [|kv rest IH]; intros st; [reflexivity|].
  cbn [forOwnField]. rewrite dispatchField_requeue.
  destruct (dispatchField StreamEntityMap msg kv st) as [[s1 out1] [|e]];
    cbn [state_of effects_of outcome_of fst snd]; [|reflexivity].
  rewrite !andThen_normal, IH. reflexivity.
Qed.

Lemma processMsg_requeue q msg (st : St) :
  processMsg StreamEntityMap msg (set_pendingMsg q st) =
  (set_pendingMsg q (state_of (processMsg StreamEntityMap msg st)),
   effects_of (processMsg StreamEntityMap msg st),
   outcome_of (processMsg StreamEntityMap msg st)).
Proof.
  unfold processMsg. cbn [syncSent syncStarted set_pendingMsg].
  destruct (truthy (msg_get msg "sync_id")).
  - destruct (negb _); [reflexivity|].
    unfold handleSubFinish. rewrite !andThen_normal. reflexivity.
  - destruct (negb _); [reflexivity|].
    unfold forEachField. destruct (array_like msg) as [n|].
    + destruct (n =? 0)%Z; reflexivity.
    + apply forOwnField_requeue.
Qed.

Lemma processValue_requeue q v (st : St) :
  processValue StreamEntityMap v (set_pendingMsg q st) =
  (set_pendingMsg q (state_of (processValue StreamEntityMap v st)),
   effects_of (processValue StreamEntityMap v st),
   outcome_of (processValue StreamEntityMap v st)).
Proof.
  destruct v as [| |b|n|s|items|fields]; cbn [processValue]; try reflexivity.
  - destruct s; [reflexivity|]. cbn [syncSent syncStarted set_pendingMsg].
    destruct (negb _); reflexivity.
  - destruct items; [reflexivity|]. cbn [syncSent syncStarted set_pendingMsg].
    destruct (negb _); reflexivity.
  - apply processMsg_requeue.
Qed.

(** The loop stores the rest of its queue before it reads anything, so what
    it does is the same whatever queue the state held. *)
Lemma processPendingLoop_requeue queue (st : St) x y after :
  set_pendingMsg after (state_of (processPendingLoop StreamEntityMap queue (set_pendingMsg x st))) =
  set_pendingMsg after (state_of (processPendingLoop StreamEntityMap queue (set_pendingMsg y st))) /\
  effects_of (processPendingLoop StreamEntityMap queue (set_pendingMsg x st)) =
  effects_of (processPendingLoop StreamEntityMap queue (set_pendingMsg y st)) /\
  outcome_of (processPendingLoop StreamEntityMap queue (set_pendingMsg x st)) =
  outcome_of (processPendingLoop StreamEntityMap queue (set_pendingMsg y st)).
Proof.
  destruct queue as [|m rest]; cbn [processPendingLoop]; [repeat split|].
  change (set_pendingMsg rest (set_pendingMsg x st)) with (set_pendingMsg rest st).
  change (set_pendingMsg rest (set_pendingMsg y st)) with (set_pendingMsg rest st).
  repeat split.
Qed.

Lemma processPendingLoop_queue queue : forall st : St,
  pendingMsg st = queue ->
  let r := processPendingLoop StreamEntityMap queue st in
  (forallb truthy queue = true /\ outcome_of r = Normal /\ pendingMsg (state_of r) = []) \/
  (exists before m after,
     queue = (before ++ m :: after)%list /\
     forallb truthy before = true /\
     outcome_of (processPendingLoop StreamEntityMap before st) = Normal /\
     pendingMsg (state_of r) = after /\
     ((truthy m = false /\
       r = (set_pendingMsg after (state_of (processPendingLoop StreamEntityMap before st)),
            effects_of (processPendingLoop StreamEntityMap before st), Normal)) \/
      (truthy m = true /\
       outcome_of r <> Normal /\
       r = (state_of (processValue StreamEntityMap m
                        (set_pendingMsg after
                           (state_of (processPendingLoop StreamEntityMap before st)))),
            (effects_of (processPendingLoop StreamEntityMap before st) ++
             effects_of (processValue StreamEntityMap m
                           (set_pendingMsg after
                              (state_of (processPendingLoop StreamEntityMap before st)))))%list,
            outcome_of (processValue StreamEntityMap m
                          (set_pendingMsg after
                             (state_of (processPendingLoop StreamEntityMap before st)))))))).
Proof.
  induction queue as [|a rest IH]; intros st Hq; cbn zeta.
  - left. cbn. now rewrite Hq.
  - cbn [processPendingLoop forallb].
    destruct (truthy a) eqn:Ha; cbn [negb andb].
    2:{ right. exists [], a, rest. cbn. repeat split. left. now split. }
    pose proof (processValue_untouched a (set_pendingMsg rest st)) as Hu.
    cbn zeta in Hu. injection Hu as _ _ _ _ _ _ _ Hp _.
    cbn [pendingMsg set_pendingMsg] in Hp.
    pose proof (processValue_requeue rest a st) as Hrest.
    destruct (processValue StreamEntityMap a st) as [[s0 out0] o0] eqn:Hv0.
    cbn [state_of effects_of outcome_of fst snd] in Hrest.
    destruct o0 as [|e].
    + (* the first message is processed; the rest of the queue decides *)
      rewrite Hrest in Hp |- *. cbn [state_of fst] in Hp.
      rewrite andThen_normal.
      destruct (IH (set_pendingMsg rest s0) Hp) as [(Hall & Hn & Hemp) | Hstop];
        cbn zeta in *.
      * left. repeat split; assumption.
      * right. destruct Hstop as (before & m & after & Hsplit & Hall & Hn & Hleft & Hm).
        exists (a :: before), m, after.
        assert (Hloop : processPendingLoop StreamEntityMap (a :: before) st =
                  (state_of (processPendingLoop StreamEntityMap before (set_pendingMsg before s0)),
                   (out0 ++ effects_of (processPendingLoop StreamEntityMap before
                                          (set_pendingMsg before s0)))%list,
                   outcome_of (processPendingLoop StreamEntityMap before
                                 (set_pendingMsg before s0)))).
        { cbn [processPendingLoop]. rewrite Ha. cbn [negb].
          rewrite (processValue_requeue before a st), Hv0.
          cbn [state_of effects_of outcome_of fst snd].
          now rewrite andThen_normal. }
        destruct (processPendingLoop_requeue before s0 before rest after)
          as (Hs & He & Ho).
        rewrite Hloop. cbn [state_of effects_of outcome_of fst snd].
        rewrite Hs, He, Ho.
        split; [cbn; now rewrite Hsplit|].
        split; [cbn [forallb]; now rewrite Ha|].
        split; [exact Hn|]. split; [exact Hleft|].
        destruct Hm as [(Hf & Hr) | (Ht & Hthrow & Hr)].
        -- left. split; [exact Hf|]. rewrite Hr. reflexivity.
        -- right. split; [exact Ht|]. split; [exact Hthrow|].
           rewrite Hr. cbn [state_of effects_of outcome_of fst snd].
           now rewrite app_assoc.
    + (* the first message throws *)
      right. exists [], a, rest.
      cbn [app forallb processPendingLoop ret state_of effects_of outcome_of fst snd].
      rewrite Hrest.
      cbn [andThen state_of effects_of outcome_of fst snd].
      split; [reflexivity|]. split; [reflexivity|]. split; [reflexivity|].
      split; [reflexivity|].
      right. split; [exact Ha|]. split; [discriminate|]. reflexivity.
Qed.

(** X2.  [#processPending] takes the messages off the queue in order.  It
    returns normally with the queue empty when every message is truthy and
    none throws.  Otherwise it stops at the first message that is falsy or
    throws: the messages before that one have been processed, that message
    is taken off the queue, and exactly the messages after it stay queued
    for a later pass.  At a falsy message the pass returns normally and
    that message is dropped; at a throwing one the exception leaves the
    pass with what the message did before stayed done. *)
Theorem processPending_consumes_in_order (st : St) :
  let r := processPending StreamEntityMap st in
  (forallb truthy (pendingMsg st) = true /\ outcome_of r = Normal /\
   pendingMsg (state_of r) = []) \/
  (exists before m after,
     pendingMsg st = (before ++ m :: after)%list /\
     forallb truthy before = true /\
     outcome_of (processPendingLoop StreamEntityMap before st) = Normal /\
     pendingMsg (state_of r) = after /\
     ((truthy m = false /\
       r = (set_pendingMsg after (state_of (processPendingLoop StreamEntityMap before st)),
            effects_of (processPendingLoop StreamEntityMap before st), Normal)) \/
      (truthy m = true /\
       outcome_of r <> Normal /\
       r = (state_of (processValue StreamEntityMap m
                        (set_pendingMsg after
                           (state_of (processPendingLoop StreamEntityMap before st)))),
            (effects_of (processPendingLoop StreamEntityMap before st) ++
             effects_of (processValue StreamEntityMap m
                           (set_pendingMsg after
                              (state_of (processPendingLoop StreamEntityMap before st)))))%list,
            outcome_of (processValue StreamEntityMap m
                          (set_pendingMsg after
                             (state_of (processPendingLoop StreamEntityMap before st)))))))).
Proof. exact (processPendingLoop_queue st eq_refl). Qed.

(** ** A field on which the callback throws *)

(** X3.  What a delta message that is not discarded leads to.  A message with
    a [length] field that makes lodash iterate it as an array is not
    dispatched at all: with [length] 0 nothing happens, otherwise the
    callback throws at once.  Any other message ends normally, with one
    callback per field, unless the callback throws on one of its fields --
    an entity of a group with a key cache whose value is [null], or a field
    that targets a group which the active subscription only inherits from
    [Object.prototype]: then the callbacks of the fields before that one
    have run and their key caches are updated, and neither that field nor
    the ones after it are dispatched. *)
Theorem processMsg_throwing_field_aborts (msg : Obj StreamContent) (st : St) :
  is_marker msg = false ->
  strict_eq (syncSent st) (syncStarted st) = true ->
  (forall n, array_like msg = Some n ->
     processMsg StreamEntityMap msg st =
     (st, [], if (n =? 0)%Z then Normal else Thrown TypeError)) /\
  (array_like msg = None ->
   existsb (throws_on StreamEntityMap st) msg = false ->
   effects_of (processMsg StreamEntityMap msg st) = map (field_effect msg) msg /\
   outcome_of (processMsg StreamEntityMap msg st) = Normal) /\
  (array_like msg = None ->
   forall before kv after,
     msg = (before ++ kv :: after)%list ->
     existsb (throws_on StreamEntityMap st) before = false ->
     throws_on StreamEntityMap st kv = true ->
     processMsg StreamEntityMap msg st =
     (state_of (forOwnField StreamEntityMap msg before st),
      map (field_effect msg) before, Thrown TypeError)).
Proof.
  intros Hm Heq. rewrite (processMsg_delta _ _ Hm Heq). split; [|split].
  - intros n Hn. unfold forEachField. rewrite Hn. now destruct (n =? 0)%Z.
  - apply forEachField_passes.
  - intros Ha before kv after Hsplit Hno Hkv.
    rewrite (@forEachField_own msg msg st Ha).
    rewrite Hsplit at 2. now apply forOwnField_stops.
Qed.

(** A marker and a discarded message never throw. *)
Lemma processMsg_marker_normal msg (st : St) :
  is_marker msg = true \/ strict_eq (syncSent st) (syncStarted st) = false ->
  outcome_of (processMsg StreamEntityMap msg st) = Normal.
Proof.
  unfold processMsg, is_marker. intros [Hm | Hd].
  - rewrite Hm. destruct (negb _); reflexivity.
  - destruct (truthy _); [destruct (negb _); reflexivity|]. now rewrite Hd.
Qed.

(** ** The group of a deletion *)

Lemma prefix_spec (sub s : string) :
  String.prefix sub s = true <-> exists b, s = sub ++ b.
Proof.
  revert s. induction sub as [|c sub IH]; intros s.
  - split; [intros _; now exists s | intros _; destruct s; reflexivity].
  - destruct s as [|c' s]; cbn.
    + split; [discriminate | intros [b Hb]; discriminate Hb].
    + destruct (ascii_dec c c') as [<- | Hne].
      * rewrite IH. split; intros [b Hb]; exists b; [now rewrite Hb | now injection Hb].
      * split; [discriminate | intros [b Hb]; injection Hb as Hc _; congruence].
Qed.

Lemma includes_spec (sub s : string) :
  includes sub s = true <-> exists a b, s = a ++ sub ++ b.
Proof.
  induction s as [|c s IH]; cbn [includes].
  - rewrite orb_false_r, prefix_spec. split.
    + intros [b Hb]. now exists "", b.
    + intros [a [b Hab]]. destruct a; [now exists b | discriminate Hab].
  - rewrite orb_true_iff, prefix_spec, IH. split.
    + intros [[b Hb] | [a [b Hab]]].
      * now exists "", b.
      * exists (String c a), b. cbn. now rewrite Hab.
    + intros [a [b Hab]]. destruct a as [|c' a].
      * left. now exists b.
      * right. injection Hab as _ Hs. now exists a, b.
Qed.

Lemma trimEnd_not_ends_in (s chars : string) : ends_in (trimEnd s chars) chars = false.
Proof.
  induction s as [|c s IH]; [reflexivity|].
  cbn [trimEnd]. destruct (trimEnd s chars) as [|c' r] eqn:Ht.
  - destruct (mem_char c chars) eqn:Hm; [reflexivity | cbn; exact Hm].
  - exact IH.
Qed.

Lemma trimEnd_prefix (s chars : string) : String.prefix (trimEnd s chars) s = true.
Proof.
  induction s as [|c s IH]; [reflexivity|].
  cbn [trimEnd]. destruct (trimEnd s chars) as [|c' r] eqn:Ht.
  - destruct (mem_char c chars); [reflexivity|].
    cbn. destruct (ascii_dec c c); [exact IH | congruence].
  - cbn [String.prefix]. destruct (ascii_dec c c); [exact IH | congruence].
Qed.

Lemma dispatchField_effects_in msg kv (st : St) e :
  In e (effects_of (dispatchField StreamEntityMap msg kv st)) -> e = field_effect msg kv.
Proof.
  destruct (dispatchField_cases msg kv st) as [[_ ->] | [_ [m ->]]]; cbn.
  - intros [].
  - intros [H | []]. now subst.
Qed.

Lemma forOwnField_effects_in msg fields : forall (st : St) e,
  In e (effects_of (forOwnField StreamEntityMap msg fields st)) ->
  exists kv, In kv fields /\ e = field_effect msg kv.
Proof.
  induction fields as [|kv rest IH]; intros st e Hin; [destruct Hin|].
  cbn [forOwnField] in Hin. rewrite effects_andThen in Hin.
  apply in_app_or in Hin as [Hin | Hin].
  - exists kv. split; [now left | now apply dispatchField_effects_in in Hin].
  - destruct (outcome_of _); [|destruct Hin].
    destruct (IH _ _ Hin) as (kv' & Hin' & He).
    exists kv'. split; [now right | exact He].
Qed.

Lemma forEachField_effects_in msg fields (st : St) e :
  In e (effects_of (forEachField StreamEntityMap msg fields st)) ->
  exists kv, In kv fields /\ e = field_effect msg kv.
Proof.
  destruct (forEachField_cases msg fields st) as [-> | [-> | [_ ->]]];
    [intros [] | intros [] | apply forOwnField_effects_in].
Qed.

(** X4.  The delete callback is only ever invoked for a field whose name
    contains ["_deleted"], with the decoded value of that field, and with a
    group that is the beginning of the field's name and does not end in
    any of the characters [_], [d], [e], [l], [t]. *)
Theorem onDelete_group_of_field (msg : Obj StreamContent) (st : St)
    (group : string) (keys : list Z) :
  In (Delete group keys) (effects_of (processMsg StreamEntityMap msg st)) ->
  ends_in group "_deleted" = false /\
  exists k v,
    In (k, v) msg /\ marked k = true /\
    group = trimEnd k "_deleted" /\ String.prefix group k = true /\
    keys = decode_keys v.
Proof.
  unfold processMsg.
  destruct (truthy (msg_get msg "sync_id")).
  - destruct (negb _); [cbn; intros []|].
    unfold handleSubFinish. rewrite andThen_normal. cbn.
    destruct (isLoaded st); cbn; [intros [H | []]; discriminate H | intros []].
  - destruct (negb _); [cbn; intros []|].
    intros Hin. apply forEachField_effects_in in Hin as ([k v] & Hin & He).
    unfold field_effect in He. cbn [fst snd] in He.
    destruct (marked k) eqn:Hm; [|discriminate He].
    injection He as -> ->. split; [apply trimEnd_not_ends_in|].
    exists k, v. repeat split; [exact Hin | exact Hm | apply trimEnd_prefix].
Qed.

(** X5.  The callback of the dispatcher takes a field for a deletion exactly
    when ["_deleted"] occurs somewhere in the name of the field, at the end
    or not: on such a field it invokes nothing but the delete callback,
    with the trimmed name and the decoded value, and on any other field
    nothing but the upsert callback, with the whole message; and when it
    does not throw it invokes exactly one of them. *)
Theorem dispatchField_deletion_iff_name_contains (msg : Obj StreamContent)
    (k : string) (v : StreamContent) (st : St) :
  let r := dispatchField StreamEntityMap msg (k, v) st in
  ((exists a b, k = a ++ "_deleted" ++ b) ->
   forall e, In e (effects_of r) -> e = Delete (trimEnd k "_deleted") (decode_keys v)) /\
  (~ (exists a b, k = a ++ "_deleted" ++ b) ->
   forall e, In e (effects_of r) -> e = Upsert msg) /\
  (outcome_of r = Normal -> exists e, effects_of r = [e]).
Proof.
  cbn zeta. split; [|split].
  - intros Hc e Hin. apply dispatchField_effects_in in Hin. subst e.
    apply includes_spec in Hc. unfold field_effect, marked. cbn [fst snd].
    now rewrite Hc.
  - intros Hc e Hin. apply dispatchField_effects_in in Hin. subst e.
    unfold field_effect, marked. cbn [fst snd].
    destruct (includes "_deleted" k) eqn:Hi; [|reflexivity].
    apply includes_spec in Hi. contradiction.
  - destruct (dispatchField_cases msg (k, v) st) as [[_ ->] | [_ [m ->]]];
      [discriminate | intros _; eexists; reflexivity].
Qed.

(** ** The branches of a pass *)

Lemma andThen_ret (st : St) (f : St -> Res) : andThen (ret st) f = f st.
Proof. unfold ret. rewrite andThen_normal. now destruct (f st) as [[s o] oc]. Qed.

Lemma processSubscription_cases (st : St) :
  processSubscription st = ret st \/
  (exists c, curSub st = Some c /\ processSubscription st = sendSpec (as_group c) st) \/
  (exists spec rest,
     subs st = spec :: rest /\
     processSubscription st = sendSpec spec (set_subs rest st)) \/
  processSubscription st = drainSubs (subs st) st.
Proof.
  unfold processSubscription.
  destruct (curSub st) as [c|] eqn:Hc.
  - assert (Hgo :
      (if negb (truthy (syncSent st))
       then if negb (truthy (syncComplete st))
               || negb (strict_eq (syncStarted st) (syncComplete st))
            then sendSpec (as_group c) st
            else match subs st with
                 | [] => ret st
                 | spec :: rest => sendSpec spec (set_subs rest st)
                 end
       else if negb (strict_eq (syncComplete st) (syncSent st)) then ret st
            else drainSubs (subs st) st) = ret st \/
      (exists c0, Some c = Some c0 /\
         (if negb (truthy (syncSent st))
          then if negb (truthy (syncComplete st))
                  || negb (strict_eq (syncStarted st) (syncComplete st))
               then sendSpec (as_group c) st
               else match subs st with
                    | [] => ret st
                    | spec :: rest => sendSpec spec (set_subs rest st)
                    end
          else if negb (strict_eq (syncComplete st) (syncSent st)) then ret st
               else drainSubs (subs st) st) = sendSpec (as_group c0) st) \/
      (exists spec rest, subs st = spec :: rest /\
         (if negb (truthy (syncSent st))
          then if negb (truthy (syncComplete st))
                  || negb (strict_eq (syncStarted st) (syncComplete st))
               then sendSpec (as_group c) st
               else match subs st with
                    | [] => ret st
                    | spec :: rest => sendSpec spec (set_subs rest st)
                    end
          else if negb (strict_eq (syncComplete st) (syncSent st)) then ret st
               else drainSubs (subs st) st) = sendSpec spec (set_subs rest st)) \/
      (if negb (truthy (syncSent st))
       then if negb (truthy (syncComplete st))
               || negb (strict_eq (syncStarted st) (syncComplete st))
            then sendSpec (as_group c) st
            else match subs st with
                 | [] => ret st
                 | spec :: rest => sendSpec spec (set_subs rest st)
                 end
       else if negb (strict_eq (syncComplete st) (syncSent st)) then ret st
            else drainSubs (subs st) st) = drainSubs (subs st) st).
    { destruct (negb (truthy (syncSent st))).
      - destruct (_ || _).
        + right. left. now exists c.
        + destruct (subs st) as [|spec rest] eqn:Hs.
          * now left.
          * right. right. left. now exists spec, rest.
      - destruct (negb (strict_eq _ _)); [now left | now right; right; right]. }
    destruct (subs st); exact Hgo.
  - destruct (subs st) as [|spec rest] eqn:Hs; [now left|].
    destruct (negb (truthy (syncSent st))).
    + right. right. left. now exists spec, rest.
    + destruct (negb (strict_eq _ _)); [now left | now right; right; right].
Qed.

Lemma advance_cases (now : Z) (st : St) :
  advance StreamEntityMap now st = ret st \/
  (closedByClient st = true /\
   advance StreamEntityMap now st = (set_ws (Some CLOSING) st, [WsClose], Normal)) \/
  (closedByClient st = false /\
   advance StreamEntityMap now st = (set_ws (Some CONNECTING) st, [Connect], Normal)) \/
  (closedByClient st = false /\ ws st = Some OPEN /\
   advance StreamEntityMap now st =
   andThen (processPending StreamEntityMap st) processSubscription).
Proof.
  unfold advance. destruct (closedByClient st) eqn:Hc.
  - destruct (ws st) as [[]|]; (now left) || (right; left; now split).
  - destruct (ws st) as [[]|] eqn:Hw.
    + left. rewrite andThen_ret. now rewrite Hw.
    + right. right. right. rewrite andThen_ret, Hw. now repeat split.
    + left. rewrite andThen_ret. now rewrite Hw.
    + destruct (now <? timeout st)%Z; [now left|].
      right. right. left. split; [reflexivity|].
      cbn [ws set_ws]. rewrite andThen_normal. reflexivity.
    + right. right. left. split; [reflexivity|].
      rewrite andThen_normal. reflexivity.
Qed.

(** ** What a pass leaves to the connection handlers *)

Lemma sendSpec_connection_fields newSub (st : St) :
  connection_fields (state_of (sendSpec newSub st)) = connection_fields st.
Proof.
  unfold sendSpec. destruct (fold_left _ _ _) as [[nsc pk] ps].
  cbn [ws set_curSub set_numSyncs]. destruct (ws st); reflexivity.
Qed.

Lemma drainSubs_connection_fields queue : forall st : St,
  connection_fields (state_of (drainSubs queue st)) = connection_fields st.
Proof.
  induction queue as [|spec rest IH]; intros st; [reflexivity|].
  cbn [drainSubs]. destruct (shouldSkip spec _).
  - rewrite state_andThen. cbn [outcome_of handleSubFinish snd state_of fst].
    now rewrite IH.
  - now rewrite sendSpec_connection_fields.
Qed.

Lemma processSubscription_connection_fields (st : St) :
  connection_fields (state_of (processSubscription st)) = connection_fields st.
Proof.
  destruct (processSubscription_cases st)
    as [-> | [(c & _ & ->) | [(spec & rest & _ & ->) | ->]]].
  - reflexivity.
  - apply sendSpec_connection_fields.
  - now rewrite sendSpec_connection_fields.
  - apply drainSubs_connection_fields.
Qed.

Lemma processPendingLoop_connection_fields queue : forall st : St,
  connection_fields (state_of (processPendingLoop StreamEntityMap queue st)) =
  connection_fields st.
Proof.
  induction queue as [|msg rest IH]; intros st; [reflexivity|].
  cbn [processPendingLoop]. destruct (negb (truthy msg)); [reflexivity|].
  rewrite state_andThen.
  pose proof (processValue_untouched msg (set_pendingMsg rest st)) as Hu.
  cbn zeta in Hu. injection Hu as _ Hre Hti _ Hcl _ _ _ Hlo.
  assert (Hone : connection_fields
            (state_of (processValue StreamEntityMap msg (set_pendingMsg rest st))) =
          connection_fields st).
  { unfold connection_fields. now rewrite Hre, Hti, Hcl, Hlo. }
  destruct (outcome_of _); [now rewrite IH | exact Hone].
Qed.

Lemma advance_connection_fields (now : Z) (st : St) :
  connection_fields (state_of (advance StreamEntityMap now st)) = connection_fields st.
Proof.
  destruct (advance_cases now st) as [-> | [[_ ->] | [[_ ->] | (_ & _ & ->)]]];
    try reflexivity.
  rewrite state_andThen. unfold processPending.
  destruct (outcome_of _).
  - now rewrite processSubscription_connection_fields, processPendingLoop_connection_fields.
  - apply processPendingLoop_connection_fields.
Qed.

(** ** Opening, closing and waiting *)

(** X9.  A successful open starts the backoff over: whatever the retry counter
    was and whatever the pass after the open did, the next close schedules
    the reconnect with the first entry of the table, zero seconds. *)
Theorem open_restarts_backoff (t1 t2 : Z) (st : St) :
  retries (state_of (onopen StreamEntityMap t1 st)) = 0 /\
  effects_of (onclose t2 (state_of (onopen StreamEntityMap t1 st))) = [SetTimeout 0] /\
  outcome_of (onclose t2 (state_of (onopen StreamEntityMap t1 st))) = Normal.
Proof.
  assert (Hr : retries (state_of (onopen StreamEntityMap t1 st)) = 0).
  { unfold onopen.
    pose proof (advance_connection_fields t1 (set_retries 0 (set_ws (Some OPEN) st))) as Hc.
    unfold connection_fields in Hc. now injection Hc as ->. }
  split; [exact Hr|].
  unfold onclose. cbn [retries set_syncSent set_ws]. rewrite Hr. now split.
Qed.

(** X10.  [close()] is idempotent: a second call changes nothing and does
    nothing, whatever the socket was doing at the first. *)
Theorem close_idempotent (t1 t2 : Z) (st : St) :
  close StreamEntityMap t2 (state_of (close StreamEntityMap t1 st)) =
  (state_of (close StreamEntityMap t1 st), [], Normal).
Proof.
  destruct st as [w r t n c s cu ss sst sc p l].
  unfold close, advance. destruct w as [[]|]; reflexivity.
Qed.

Lemma handle_after_close ev now (st : St) :
  closedByClient st = true ->
  closedByClient (state_of (handle StreamEntityMap ev now st)) = true /\
  Forall (fun e => e = WsClose \/ exists ms, e = SetTimeout ms)
    (effects_of (handle StreamEntityMap ev now st)).
Proof.
  intros Hc.
  assert (Hadv : forall t (s : St), closedByClient s = true ->
    closedByClient (state_of (advance StreamEntityMap t s)) = true /\
    Forall (fun e => e = WsClose \/ exists ms, e = SetTimeout ms)
      (effects_of (advance StreamEntityMap t s))).
  { intros t s Hs. unfold advance. rewrite Hs.
    destruct (ws s) as [[]|]; cbn; (split; [exact Hs|]); repeat constructor. }
  destruct ev; cbn [handle].
  - apply Hadv. exact Hc.
  - unfold onclose. cbn [retries set_syncSent set_ws].
    destruct (nth_error backoffs (retries st)); cbn; (split; [exact Hc|]).
    + constructor; [right; eexists; reflexivity | constructor].
    + constructor.
  - apply Hadv. exact Hc.
  - apply Hadv. exact Hc.
  - apply Hadv. exact Hc.
  - apply Hadv. reflexivity.
Qed.

(** X11.  Once the owner called [close()], the engine stays closed by the client
    whatever happens next, and all it ever does is to close the socket and,
    from the close handler, to set a timer: it opens no socket, sends
    nothing and invokes no callback. *)
Theorem closed_by_client_is_final (evs : list (Z * Event (Sp := Sp))) (st : St) :
  closedByClient st = true ->
  closedByClient (fst (runEvents StreamEntityMap evs st)) = true /\
  Forall (fun e => e = WsClose \/ exists ms, e = SetTimeout ms)
    (snd (runEvents StreamEntityMap evs st)).
Proof.
  revert st. induction evs as [|[now ev] rest IH]; intros st Hc.
  - cbn. split; [exact Hc | constructor].
  - cbn [runEvents fst snd].
    destruct (handle_after_close ev now st Hc) as [Hc' Hf].
    destruct (IH _ Hc') as [Hc'' Hf'].
    split; [exact Hc''|]. apply Forall_app. now split.
Qed.

(** X12.  After a close at [now] that scheduled a backoff of [b] seconds, a pass
    that runs before the backoff has elapsed neither connects nor does
    anything else; the first pass at or after that moment opens a new
    socket and stops there, unless the owner closed the engine. *)
Theorem reconnect_waits_for_backoff (now : Z) (st : St) (b : Z) :
  nth_error backoffs (retries st) = Some b ->
  let st' := state_of (onclose now st) in
  (forall t, (t < now + b * 1000)%Z ->
     advance StreamEntityMap t st' = (st', [], Normal)) /\
  (closedByClient st = false ->
   forall t, (now + b * 1000 <= t)%Z ->
     advance StreamEntityMap t st' = (set_ws (Some CONNECTING) st', [Connect], Normal)).
Proof.
  intros Hb. cbn zeta. rewrite (onclose_scheduled now st Hb).
  unfold state_of. cbn [fst]. split.
  - intros t Ht. unfold advance.
    cbn [closedByClient ws timeout set_retries set_timeout set_syncSent set_ws].
    apply Z.ltb_lt in Ht. rewrite Ht. now destruct (closedByClient st).
  - intros Hc t Ht. unfold advance.
    cbn [closedByClient ws timeout set_retries set_timeout set_syncSent set_ws].
    apply Z.ltb_ge in Ht. rewrite Hc, Ht. rewrite andThen_normal. reflexivity.
Qed.


(** ** Waiting for the catch-up *)


Lemma andThen_ret_r (r : Res) : andThen r (@ret Sp KC) = r.
Proof.
  destruct r as [[st out] [|e]]; [|reflexivity].
  cbn. now rewrite app_nil_r.
Qed.

(** X7.  The start marker opens the window for deltas only when it carries the
    identifier in flight: a delta that follows a start marker is dispatched
    when the marker's [sync_id] is [syncSent], and dropped when it is
    another one. *)
Theorem start_marker_opens_window (m delta : Obj StreamContent) (st : St) :
  is_start_marker m = true ->
  is_marker delta = false ->
  let st1 := set_pendingMsg [] (set_syncStarted (msg_get m "sync_id") st) in
  processPendingLoop StreamEntityMap [VObj m; VObj delta] st =
  if strict_eq (syncSent st) (msg_get m "sync_id")
  then forEachField StreamEntityMap delta delta st1
  else (st1, [], Normal).
Proof.
  unfold is_start_marker, is_marker. intros Hm Hd. cbn zeta.
  apply andb_true_iff in Hm as [Hid Hc].
  cbn [processPendingLoop truthy negb processValue].
  unfold processMsg at 1. rewrite Hid, Hc.
  rewrite andThen_ret, andThen_ret_r.
  unfold processMsg. rewrite Hd.
  cbn [syncSent syncStarted set_pendingMsg set_syncStarted].
  destruct (strict_eq (syncSent st) (msg_get m "sync_id")); reflexivity.
Qed.

(** ** The labels reported as loaded *)

Lemma labels_nonempty (g : SubscriptionGroup Sp) : ~ In "" (labels g).
Proof.
  unfold labels. intros Hin. apply filter_In in Hin as [_ Hne]. discriminate Hne.
Qed.

Lemma handleSubFinish_loaded g (st : St) ids :
  In (Loaded ids) (effects_of (handleSubFinish g st)) ->
  isLoaded st = true /\ ids = labels g.
Proof.
  unfold handleSubFinish. cbn. destruct (isLoaded st); [|intros []].
  intros [H | []]. injection H as <-. now split.
Qed.

Lemma processMsg_loaded msg (st : St) ids :
  In (Loaded ids) (effects_of (processMsg StreamEntityMap msg st)) ->
  isLoaded st = true /\ exists g : SubscriptionGroup Sp, ids = labels g.
Proof.
  unfold processMsg.
  destruct (truthy (msg_get msg "sync_id")).
  - destruct (negb _); [cbn; intros []|].
    rewrite effects_andThen. cbn [outcome_of handleSubFinish snd].
    cbn [effects_of ret fst snd]. rewrite app_nil_r.
    intros Hin. apply handleSubFinish_loaded in Hin as [Hl ->]. split; [exact Hl|].
    now eexists.
  - destruct (negb _); [cbn; intros []|].
    intros Hin.
    assert (Hf : In (Loaded ids)
              (filter is_loaded (effects_of (forEachField StreamEntityMap msg msg st)))).
    { apply filter_In. now split. }
    rewrite forEachField_no_loaded in Hf. destruct Hf.
Qed.

Lemma processPendingLoop_loaded queue : forall (st : St) ids,
  In (Loaded ids) (effects_of (processPendingLoop StreamEntityMap queue st)) ->
  isLoaded st = true /\ exists g : SubscriptionGroup Sp, ids = labels g.
Proof.
  induction queue as [|msg rest IH]; intros st ids Hin; [destruct Hin|].
  cbn [processPendingLoop] in Hin.
  destruct (negb (truthy msg)); [destruct Hin|].
  rewrite effects_andThen in Hin.
  pose proof (processValue_untouched msg (set_pendingMsg rest st)) as Hu.
  cbn zeta in Hu. injection Hu as _ _ _ _ _ _ _ _ Hlo.
  apply in_app_or in Hin as [Hin | Hin].
  - destruct (processValue_cases msg (set_pendingMsg rest st))
      as [Hv | [Hv | [fields [_ Hv]]]]; rewrite Hv in Hin;
      [destruct Hin | destruct Hin | apply processMsg_loaded in Hin; exact Hin].
  - destruct (outcome_of _); [|destruct Hin].
    apply IH in Hin. now rewrite Hlo in Hin.
Qed.

Lemma sendSpec_no_loaded newSub (st : St) ids :
  ~ In (Loaded ids) (effects_of (sendSpec newSub st)).
Proof.
  unfold sendSpec. destruct (fold_left _ _ _) as [[nsc pk] ps].
  cbn [ws set_curSub set_numSyncs]. destruct (ws st); cbn; [|tauto].
  intros [H | []]. discriminate H.
Qed.

Lemma drainSubs_loaded queue : forall (st : St) ids,
  In (Loaded ids) (effects_of (drainSubs queue st)) ->
  isLoaded st = true /\ exists g : SubscriptionGroup Sp, ids = labels g.
Proof.
  induction queue as [|spec rest IH]; intros st ids Hin; [destruct Hin|].
  cbn [drainSubs] in Hin. destruct (shouldSkip spec _).
  - rewrite effects_andThen in Hin. cbn [outcome_of handleSubFinish snd state_of fst] in Hin.
    apply in_app_or in Hin as [Hin | Hin].
    + apply handleSubFinish_loaded in Hin as [Hl ->]. split; [exact Hl | now eexists].
    + apply IH in Hin. exact Hin.
  - now apply sendSpec_no_loaded in Hin.
Qed.

Lemma advance_loaded now (st : St) ids :
  In (Loaded ids) (effects_of (advance StreamEntityMap now st)) ->
  isLoaded st = true /\ exists g : SubscriptionGroup Sp, ids = labels g.
Proof.
  destruct (advance_cases now st) as [-> | [[_ ->] | [[_ ->] | (_ & _ & ->)]]].
  - intros [].
  - intros [H | []]. discriminate H.
  - intros [H | []]. discriminate H.
  - rewrite effects_andThen. intros Hin. apply in_app_or in Hin as [Hin | Hin].
    + now apply processPendingLoop_loaded in Hin.
    + destruct (outcome_of _); [|destruct Hin].
      assert (Hl : isLoaded (state_of (processPending StreamEntityMap st)) = isLoaded st).
      { pose proof (processPendingLoop_connection_fields (pendingMsg st) st) as Hc.
        unfold connection_fields in Hc. now injection Hc. }
      destruct (processSubscription_cases (state_of (processPending StreamEntityMap st)))
        as [Hr | [(c & _ & Hr) | [(spec & rest & _ & Hr) | Hr]]]; rewrite Hr in Hin.
      * destruct Hin.
      * now apply sendSpec_no_loaded in Hin.
      * now apply sendSpec_no_loaded in Hin.
      * apply drainSubs_loaded in Hin. now rewrite Hl in Hin.
Qed.

(** X8.  Whatever happens to the engine, the loaded callback is invoked only
    when one was supplied, and never with an empty label: entries without
    an [id], or with the empty string for one, are left out of the list. *)
Theorem loaded_labels_never_empty (ev : Event (Sp := Sp)) (now : Z) (st : St)
    (ids : list string) :
  In (Loaded ids) (effects_of (handle StreamEntityMap ev now st)) ->
  isLoaded st = true /\ ~ In "" ids.
Proof.
  intros Hin.
  assert (H : isLoaded st = true /\ exists g : SubscriptionGroup Sp, ids = labels g).
  { destruct ev; cbn [handle] in Hin.
    - unfold onopen in Hin. now apply advance_loaded in Hin.
    - unfold onclose in Hin. cbn [retries set_syncSent set_ws] in Hin.
      destruct (nth_error backoffs (retries st)); cbn in Hin;
        [destruct Hin as [H | []]; discriminate H | destruct Hin].
    - unfold onmessage in Hin. now apply advance_loaded in Hin.
    - now apply advance_loaded in Hin.
    - unfold subscribe in Hin. now apply advance_loaded in Hin.
    - unfold close in Hin. now apply advance_loaded in Hin. }
  destruct H as [Hl [g ->]]. split; [exact Hl | apply labels_nonempty].
Qed.

(** ** The pass after a reconnect *)

(** X16.  When a socket opens and the markers show the active subscription as
    unfinished ([syncComplete] unset, or different from [syncStarted]), the
    pass sends exactly the active subscription again, under the next
    identifier, with the known keys and the [since] cursor of its key
    caches; the active subscription and the queue stay as they are. *)
Theorem reconnect_resends_unfinished (now : Z) (st : St)
    (cur : Obj (SubscriptionWithCache Sp KC)) :
  closedByClient st = false ->
  pendingMsg st = [] ->
  curSub st = Some cur ->
  well_keyed cur ->
  truthy (syncSent st) = false ->
  truthy (syncComplete st) = false \/
    strict_eq (syncStarted st) (syncComplete st) = false ->
  let r := onopen StreamEntityMap now st in
  effects_of r = [Sent (payload_of cur (toString (S (numSyncs st))))] /\
  outcome_of r = Normal /\
  curSub (state_of r) = Some cur /\
  subs (state_of r) = subs st /\
  syncSent (state_of r) = VStr (toString (S (numSyncs st))).
Proof.
  intros Hc Hp Hcur Hwk Hs Hun. cbn zeta.
  unfold onopen, advance. cbn [closedByClient ws set_retries set_ws].
  rewrite Hc, andThen_ret. cbn [ws set_retries set_ws].
  unfold processPending. cbn [pendingMsg set_retries set_ws]. rewrite Hp.
  cbn [processPendingLoop]. rewrite andThen_ret.
  rewrite (processSubscription_resend (set_retries 0 (set_ws (Some OPEN) st)) Hcur Hs Hun).
  rewrite (sendSpec_active (set_retries 0 (set_ws (Some OPEN) st)) (r := OPEN) Hcur Hwk eq_refl).
  repeat split.
Qed.

Lemma runEvents_cons now ev rest (st : St) :
  runEvents StreamEntityMap ((now, ev) :: rest) st =
  (fst (runEvents StreamEntityMap rest (state_of (handle StreamEntityMap ev now st))),
   (effects_of (handle StreamEntityMap ev now st) ++
    snd (runEvents StreamEntityMap rest (state_of (handle StreamEntityMap ev now st))))%list).
Proof. reflexivity. Qed.

Lemma advance_reconnects (t : Z) (st : St) :
  closedByClient st = false ->
  ws st = Some CLOSED ->
  (timeout st <= t)%Z ->
  advance StreamEntityMap t st = (set_ws (Some CONNECTING) st, [Connect], Normal).
Proof.
  intros Hc Hw Ht. unfold advance. apply Z.ltb_ge in Ht.
  rewrite Hc, Hw, Ht. cbn [ws set_ws]. rewrite andThen_normal. reflexivity.
Qed.

Lemma onopen_nothing_to_send (t : Z) (st : St) cur :
  closedByClient st = false ->
  pendingMsg st = [] ->
  subs st = [] ->
  curSub st = Some cur ->
  truthy (syncSent st) = false ->
  truthy (syncComplete st) = true ->
  strict_eq (syncStarted st) (syncComplete st) = true ->
  onopen StreamEntityMap t st = ret (set_retries 0 (set_ws (Some OPEN) st)).
Proof.
  intros Hc Hp Hq Hcur Hs Hd He. unfold onopen, advance.
  cbn [closedByClient ws set_retries set_ws]. rewrite Hc, andThen_ret.
  cbn [ws set_retries set_ws].
  unfold processPending. cbn [pendingMsg set_retries set_ws]. rewrite Hp.
  cbn [processPendingLoop]. rewrite andThen_ret.
  unfold processSubscription.
  cbn [curSub subs syncSent syncStarted syncComplete set_retries set_ws].
  rewrite Hcur, Hq, Hs, Hd, He. reflexivity.
Qed.

(** X17.  When a socket is lost and a new one opens while the markers of the
    last completed sync are still in place and nothing is queued, the
    engine sets the timer, connects, and sends nothing on the new socket:
    the active subscription is not announced again. *)
Theorem reconnect_after_completed_sync_sends_nothing (t1 t2 t3 : Z) (st : St)
    (cur : Obj (SubscriptionWithCache Sp KC)) (b : Z) :
  closedByClient st = false ->
  pendingMsg st = [] ->
  subs st = [] ->
  curSub st = Some cur ->
  truthy (syncComplete st) = true ->
  strict_eq (syncStarted st) (syncComplete st) = true ->
  nth_error backoffs (retries st) = Some b ->
  (t1 + b * 1000 <= t2)%Z ->
  let r := runEvents StreamEntityMap [(t1, EvClose); (t2, EvTimer); (t3, EvOpen)] st in
  snd r = [SetTimeout (b * 1000)%Z; Connect] /\
  ws (fst r) = Some OPEN /\
  curSub (fst r) = Some cur /\
  syncSent (fst r) = VUndefined.
Proof.
  intros Hc Hp Hq Hcur Hd He Hb Ht. cbn zeta.
  rewrite !runEvents_cons.
  change (handle StreamEntityMap EvClose t1 st) with (onclose t1 st).
  rewrite (onclose_scheduled t1 st Hb).
  change (state_of (?a, ?b, ?c)) with a. change (effects_of (?a, ?b, ?c)) with b.
  match goal with
  | |- context [handle StreamEntityMap EvTimer t2 ?s] =>
      change (handle StreamEntityMap EvTimer t2 s) with (advance StreamEntityMap t2 s);
      rewrite (@advance_reconnects t2 s Hc eq_refl Ht)
  end.
  change (state_of (?a, ?b, ?c)) with a. change (effects_of (?a, ?b, ?c)) with b.
  match goal with
  | |- context [handle StreamEntityMap EvOpen t3 ?s] =>
      change (handle StreamEntityMap EvOpen t3 s) with (onopen StreamEntityMap t3 s);
      rewrite (@onopen_nothing_to_send t3 s cur Hc Hp Hq Hcur eq_refl Hd He)
  end.
  repeat split. exact Hcur.
Qed.

(** ** The identifiers of the syncs *)

Lemma toString_inj (n m : nat) : toString n = toString m -> n = m.
Proof.
  unfold toString. intros H.
  assert (Hnn : forall k, Nat.to_uint k <> Decimal.Nil).
  { intros k Hk. pose proof (DecimalNat.Unsigned.of_to k) as Hof.
    rewrite Hk in Hof. cbn in Hof. subst k. discriminate Hk. }
  apply (f_equal NilZero.uint_of_string) in H.
  rewrite !NilZero.usu in H by apply Hnn.
  injection H as H. now apply DecimalNat.Unsigned.to_uint_inj.
Qed.

Lemma sent_ids_app (a b : list Effect) : sent_ids (a ++ b) = (sent_ids a ++ sent_ids b)%list.
Proof. unfold sent_ids. apply flat_map_app. Qed.

Lemma sent_ids_silent (out : list Effect) : count is_sent out = 0 -> sent_ids out = [].
Proof.
  unfold count. induction out as [|e out IH]; [reflexivity|].
  cbn [filter]. destruct e; cbn [is_sent List.length sent_ids flat_map app];
    try exact IH. discriminate.
Qed.

Lemma ids_from_app (n a b : nat) :
  ids_from n (a + b) = (ids_from n a ++ ids_from (n + a) b)%list.
Proof. unfold ids_from. now rewrite seq_app, map_app. Qed.

Lemma numbered_silent (st : St) (r : Res) :
  count is_sent (effects_of r) = 0 ->
  numSyncs (state_of r) = numSyncs st ->
  numbered st r.
Proof.
  intros Hc Hn. unfold numbered. rewrite Hc, (sent_ids_silent _ Hc), Hn.
  split; [reflexivity | lia].
Qed.

Lemma numbered_andThen (st : St) (r : Res) (f : St -> Res) :
  numbered st r ->
  (outcome_of r = Normal -> numbered (state_of r) (f (state_of r))) ->
  numbered st (andThen r f).
Proof.
  intros [Hi Hn] Hf. unfold numbered.
  rewrite effects_andThen, state_andThen, sent_ids_app, count_app.
  destruct (outcome_of r).
  - destruct (Hf eq_refl) as [Hi' Hn'].
    rewrite ids_from_app, Hi, Hi', Hn', Hn. split; [reflexivity | lia].
  - cbn. rewrite !app_nil_r, Nat.add_0_r. now split.
Qed.

Lemma sendSpec_numbered newSub (st : St) r :
  ws st = Some r -> numbered st (sendSpec newSub st).
Proof.
  intros Hws. destruct (sendSpec_sends newSub st Hws) as (pk & ps & He & _ & Hn & _).
  unfold numbered. rewrite He, Hn. split; [reflexivity | cbn; lia].
Qed.

Lemma drainSubs_numbered queue : forall (st : St) r,
  ws st = Some r -> numbered st (drainSubs queue st).
Proof.
  induction queue as [|spec rest IH]; intros st r Hws.
  - now apply numbered_silent.
  - cbn [drainSubs]. destruct (shouldSkip spec _).
    + apply numbered_andThen.
      * apply numbered_silent; [apply handleSubFinish_no_sent | reflexivity].
      * intros _. exact (IH (set_subs rest st) r Hws).
    + exact (sendSpec_numbered spec (set_subs rest st) (r := r) Hws).
Qed.

Lemma processSubscription_numbered (st : St) r :
  ws st = Some r -> numbered st (processSubscription st).
Proof.
  intros Hws.
  destruct (processSubscription_cases st)
    as [-> | [(c & _ & ->) | [(spec & rest & _ & ->) | ->]]].
  - now apply numbered_silent.
  - exact (sendSpec_numbered _ st Hws).
  - exact (sendSpec_numbered spec (set_subs rest st) (r := r) Hws).
  - exact (drainSubs_numbered _ st Hws).
Qed.

Lemma advance_numbered now (st : St) : numbered st (advance StreamEntityMap now st).
Proof.
  destruct (advance_cases now st) as [-> | [[_ ->] | [[_ ->] | (_ & Hw & ->)]]];
    try (now apply numbered_silent).
  destruct (processPendingLoop_ws_numSyncs (pendingMsg st) st) as [Hw' Hn'].
  apply numbered_andThen.
  - apply numbered_silent; [apply processPendingLoop_no_sent | exact Hn'].
  - intros _. apply processSubscription_numbered with (r := OPEN).
    unfold processPending. now rewrite Hw'.
Qed.

Lemma handle_numbered ev now (st : St) : numbered st (handle StreamEntityMap ev now st).
Proof.
  destruct ev; cbn [handle].
  - exact (advance_numbered now (set_retries 0 (set_ws (Some OPEN) st))).
  - unfold onclose. cbn [retries set_syncSent set_ws].
    destruct (nth_error backoffs (retries st)); now apply numbered_silent.
  - exact (advance_numbered now (set_pendingMsg (pendingMsg st ++ [msg]) st)).
  - apply advance_numbered.
  - exact (advance_numbered now
             (set_subs (subs st ++ [[(spec_id spec, {| sub_spec := spec; sub_id := id |})]]) st)).
  - exact (advance_numbered now (set_closedByClient true st)).
Qed.

(** X20.  In every run, from any state, the payloads sent carry the sync
    identifiers that follow the counter, one after the other and in order:
    no identifier is skipped and none is used twice. *)
Theorem sync_ids_consecutive (evs : list (Z * Event (Sp := Sp))) (st : St) :
  let r := runEvents StreamEntityMap evs st in
  sent_ids (snd r) = ids_from (numSyncs st) (count is_sent (snd r)) /\
  numSyncs (fst r) = numSyncs st + count is_sent (snd r) /\
  NoDup (sent_ids (snd r)).
Proof.
  cbn zeta.
  assert (H : sent_ids (snd (runEvents StreamEntityMap evs st)) =
              ids_from (numSyncs st) (count is_sent (snd (runEvents StreamEntityMap evs st))) /\
              numSyncs (fst (runEvents StreamEntityMap evs st)) =
              numSyncs st + count is_sent (snd (runEvents StreamEntityMap evs st))).
  { revert st. induction evs as [|[now ev] rest IH]; intros st.
    - cbn. split; [reflexivity | lia].
    - rewrite runEvents_cons. cbn [fst snd].
      destruct (handle_numbered ev now st) as [Hi Hn].
      destruct (IH (state_of (handle StreamEntityMap ev now st))) as [Hi' Hn'].
      rewrite sent_ids_app, count_app, ids_from_app, Hi, Hi', Hn', Hn.
      split; [reflexivity | lia]. }
  destruct H as [Hi Hn]. split; [exact Hi|]. split; [exact Hn|].
  rewrite Hi. unfold ids_from. apply Finite.Injective_map_NoDup; [|apply seq_NoDup].
  intros a b Hab. injection Hab as Hab. now apply toString_inj.
Qed.

(** ** What holds in every state *)

Lemma well_keyed_of_as_group (c c' : Obj (SubscriptionWithCache Sp KC)) :
  as_group c = as_group c' -> well_keyed c -> well_keyed c'.
Proof.
  intros Hg [Hnd Hkey]. split.
  - rewrite <- (as_group_keys c'), <- Hg, as_group_keys. exact Hnd.
  - intros k e' Hin.
    assert (Hin' : In (k, forget_cache e') (as_group c')).
    { unfold as_group. apply in_map_iff. exists (k, e'). now split. }
    rewrite <- Hg in Hin'. unfold as_group in Hin'.
    apply in_map_iff in Hin' as ([k0 e0] & Heq & Hin0). cbn [fst snd] in Heq.
    injection Heq as Hk Hf _. subst k0.
    rewrite <- Hf. now apply Hkey.
Qed.

Lemma consistent_transfer (st st' : St) :
  syncSent st' = syncSent st ->
  numSyncs st' = numSyncs st ->
  retries st' = retries st ->
  option_map as_group (curSub st') = option_map as_group (curSub st) ->
  consistent st -> consistent st'.
Proof.
  intros Hs Hn Hr Hg (Hsent & Hnone & Hwk & Hre). unfold consistent.
  rewrite Hs, Hn, Hr. split; [|split; [split|split]].
  - exact Hsent.
  - intros Hc. apply Hnone. rewrite Hc in Hg.
    destruct (curSub st); [discriminate Hg | reflexivity].
  - intros Hz. apply Hnone in Hz. rewrite Hz in Hg.
    destruct (curSub st'); [discriminate Hg | reflexivity].
  - intros cur' Hc. rewrite Hc in Hg.
    destruct (curSub st) as [cur|] eqn:Hcur; [|discriminate Hg].
    cbn in Hg. injection Hg as Hg.
    apply (well_keyed_of_as_group (c := cur)); [now symmetry | now apply Hwk].
  - exact Hre.
Qed.

Lemma processMsg_consistent msg (st : St) :
  consistent st -> consistent (state_of (processMsg StreamEntityMap msg st)).
Proof.
  pose proof (processMsg_untouched msg st) as Hu. cbn zeta in Hu.
  injection Hu as _ Hre _ Hnu _ _ Hse _ _.
  apply consistent_transfer; try assumption. apply processMsg_as_group.
Qed.

Lemma processPendingLoop_consistent queue : forall st : St,
  consistent st -> consistent (state_of (processPendingLoop StreamEntityMap queue st)).
Proof.
  induction queue as [|msg rest IH]; intros st Hc; [exact Hc|].
  assert (H0 : consistent (set_pendingMsg rest st)).
  { apply (consistent_transfer (st := st)); try reflexivity. exact Hc. }
  cbn [processPendingLoop]. destruct (negb (truthy msg)); [exact H0|].
  rewrite state_andThen.
  assert (H1 : consistent (state_of (processValue StreamEntityMap msg (set_pendingMsg rest st)))).
  { destruct (processValue_cases msg (set_pendingMsg rest st))
      as [-> | [-> | [fields [_ ->]]]];
      [exact H0 | exact H0 | now apply processMsg_consistent]. }
  destruct (outcome_of _); [now apply IH | exact H1].
Qed.

Lemma sendSpec_consistent newSub (st : St) r :
  ws st = Some r -> consistent st -> consistent (state_of (sendSpec newSub st)).
Proof.
  intros Hws (_ & _ & _ & Hre).
  destruct (sendSpec_sends newSub st Hws) as (pk & ps & _ & _ & Hn & Hs).
  pose proof (sendSpec_connection_fields newSub st) as Hc.
  unfold connection_fields in Hc. injection Hc as Hr _ _ _.
  assert (Hsome : exists cur', curSub (state_of (sendSpec newSub st)) = Some cur').
  { unfold sendSpec. destruct (fold_left _ _ _) as [[nsc pk'] ps'].
    cbn [ws set_curSub set_numSyncs]. rewrite Hws. cbn. now eexists. }
  destruct Hsome as [cur' Hcur'].
  unfold consistent. rewrite Hn, Hs, Hr, Hcur'. split; [|split; [split|split]].
  - now right.
  - discriminate.
  - discriminate.
  - intros c [= <-]. exact (sendSpec_well_keyed newSub st Hcur').
  - exact Hre.
Qed.

Lemma drainSubs_consistent queue : forall (st : St) r,
  ws st = Some r -> consistent st -> consistent (state_of (drainSubs queue st)).
Proof.
  induction queue as [|spec rest IH]; intros st r Hws Hc; [exact Hc|].
  assert (Hc1 : consistent (set_subs rest st)).
  { apply (consistent_transfer (st := st)); try reflexivity. exact Hc. }
  cbn [drainSubs]. destruct (shouldSkip spec _).
  - rewrite state_andThen. cbn [outcome_of handleSubFinish snd state_of fst].
    exact (IH (set_subs rest st) r Hws Hc1).
  - exact (@sendSpec_consistent spec (set_subs rest st) r Hws Hc1).
Qed.

Lemma processSubscription_consistent (st : St) r :
  ws st = Some r -> consistent st -> consistent (state_of (processSubscription st)).
Proof.
  intros Hws Hc.
  destruct (processSubscription_cases st)
    as [-> | [(c & _ & ->) | [(spec & rest & _ & ->) | ->]]].
  - exact Hc.
  - exact (@sendSpec_consistent _ st r Hws Hc).
  - apply (@sendSpec_consistent spec (set_subs rest st) r Hws).
    apply (consistent_transfer (st := st)); try reflexivity. exact Hc.
  - exact (@drainSubs_consistent _ st r Hws Hc).
Qed.

Lemma advance_consistent now (st : St) :
  consistent st -> consistent (state_of (advance StreamEntityMap now st)).
Proof.
  intros Hc.
  destruct (advance_cases now st) as [-> | [[_ ->] | [[_ ->] | (_ & Hw & ->)]]].
  - exact Hc.
  - apply (consistent_transfer (st := st)); try reflexivity. exact Hc.
  - apply (consistent_transfer (st := st)); try reflexivity. exact Hc.
  - rewrite state_andThen.
    pose proof (@processPendingLoop_consistent (pendingMsg st) st Hc) as Hp.
    destruct (processPendingLoop_ws_numSyncs (pendingMsg st) st) as [Hw' _].
    destruct (outcome_of _); [|exact Hp].
    apply processSubscription_consistent with (r := OPEN); [|exact Hp].
    unfold processPending. now rewrite Hw'.
Qed.

Lemma handle_consistent ev now (st : St) :
  consistent st -> consistent (state_of (handle StreamEntityMap ev now st)).
Proof.
  intros Hc. destruct ev; cbn [handle].
  - apply advance_consistent.
    destruct Hc as (H1 & H2 & H3 & H4). unfold consistent.
    cbn [syncSent numSyncs curSub retries set_retries set_ws].
    split; [|split; [|split]]; try assumption. lia.
  - destruct Hc as (H1 & H2 & H3 & H4).
    unfold onclose. cbn [retries set_syncSent set_ws].
    destruct (nth_error backoffs (retries st)) as [b|] eqn:Hb.
    + assert (Hlt : retries st < List.length backoffs).
      { apply nth_error_Some. congruence. }
      unfold consistent, state_of.
      cbn [fst syncSent numSyncs curSub retries set_retries set_timeout set_syncSent set_ws].
      split; [|split; [|split]]; try assumption. now left.
    + unfold consistent, state_of.
      cbn [fst syncSent numSyncs curSub retries set_syncSent set_ws].
      split; [|split; [|split]]; try assumption. now left.
  - apply advance_consistent.
    apply (consistent_transfer (st := st)); try reflexivity. exact Hc.
  - now apply advance_consistent.
  - apply advance_consistent.
    apply (consistent_transfer (st := st)); try reflexivity. exact Hc.
  - apply advance_consistent.
    apply (consistent_transfer (st := st)); try reflexivity. exact Hc.
Qed.

(** X21.  In every state an engine reaches after its construction, whatever the
    events: [syncSent] is unset or is the last identifier issued; there is
    an active subscription exactly when an identifier was issued; the
    active subscription has one entry per group, under the [id()] of its
    spec; and the retry counter is within the backoff table. *)
Theorem engine_state_consistent (loaded_cb : bool) (t0 : Z)
    (evs : list (Z * Event (Sp := Sp))) :
  consistent
    (fst (runEvents StreamEntityMap evs (state_of (construct StreamEntityMap loaded_cb t0)))).
Proof.
  assert (Hrun : forall (l : list (Z * Event (Sp := Sp))) (st : St),
            consistent st -> consistent (fst (runEvents StreamEntityMap l st))).
  { induction l as [|[now ev] rest IH]; intros st Hc; [exact Hc|].
    rewrite runEvents_cons. cbn [fst]. apply IH. now apply handle_consistent. }
  apply Hrun. unfold construct. apply advance_consistent.
  unfold consistent, initial. cbn. split; [|split; [|split]].
  - now left.
  - split; reflexivity.
  - intros cur H. discriminate H.
  - lia.
Qed.

(** ** Merging a subscription into the active one *)

Lemma obj_get_In {V} (o : Obj V) k v : obj_get o k = Some v -> In (k, v) o.
Proof.
  induction o as [|[k' v'] o IH]; [discriminate|].
  cbn. destruct (String.eqb k' k) eqn:E.
  - apply String.eqb_eq in E. intros [= ->]. left. now subst.
  - intros H. right. now apply IH.
Qed.

Lemma obj_get_rev_nodup {V} (o : Obj V) k :
  NoDup (map fst o) -> obj_get (rev o) k = obj_get o k.
Proof.
  intros Hnd.
  assert (Hnd' : NoDup (map fst (rev o))) by (rewrite map_rev; now apply NoDup_rev).
  destruct (obj_get o k) as [v|] eqn:Hg.
  - apply obj_get_in_nodup; [exact Hnd'|]. apply in_rev. rewrite rev_involutive.
    now apply obj_get_In.
  - destruct (obj_get (rev o) k) as [v|] eqn:Hr; [|reflexivity].
    apply obj_get_In in Hr. apply in_rev in Hr.
    rewrite (obj_get_in_nodup o k v Hnd Hr) in Hg. discriminate Hg.
Qed.

Lemma obj_get_app {V} (a b : Obj V) k :
  obj_get (a ++ b)%list k =
  match obj_get a k with Some v => Some v | None => obj_get b k end.
Proof.
  induction a as [|[k' v'] a IH]; [reflexivity|].
  cbn. destruct (String.eqb k' k); [reflexivity | exact IH].
Qed.

Lemma obj_get_set {V} (o : Obj V) k v k' :
  obj_get (obj_set o k v) k' = if String.eqb k k' then Some v else obj_get o k'.
Proof.
  destruct (String.eqb k k') eqn:E.
  - apply String.eqb_eq in E. subst k'. apply obj_get_set_same.
  - apply obj_get_set_other. intros ->. now rewrite String.eqb_refl in E.
Qed.

Lemma obj_get_spread {V} (b : Obj V) : forall (a : Obj V) k,
  obj_get (obj_spread a b) k =
  match obj_get (rev b) k with Some v => Some v | None => obj_get a k end.
Proof.
  unfold obj_spread. induction b as [|[k0 v0] b IH]; intros a k; [reflexivity|].
  cbn [fold_left fst snd rev]. rewrite IH, obj_get_app, obj_get_set.
  destruct (obj_get (rev b) k); [reflexivity|].
  cbn. destruct (String.eqb k0 k); reflexivity.
Qed.

Lemma obj_get_as_group (c : Obj (SubscriptionWithCache Sp KC)) k :
  obj_get (as_group c) k = option_map forget_cache (obj_get c k).
Proof.
  unfold as_group. induction c as [|[k' e] c IH]; [reflexivity|].
  cbn. destruct (String.eqb k' k); [reflexivity | exact IH].
Qed.

Lemma obj_get_attach (old : option (Obj (SubscriptionWithCache Sp KC))) (l : SubscriptionGroup Sp) k :
  obj_get (map (attach_cache old) l) k =
  option_map (fun e => snd (attach_cache old (k, e))) (obj_get l k).
Proof.
  induction l as [|[k' e] l IH]; [reflexivity|].
  cbn [map obj_get attach_cache fst snd]. destruct (String.eqb k' k) eqn:E.
  - apply String.eqb_eq in E. subst k'. reflexivity.
  - exact IH.
Qed.

Lemma group_keyed_as_group (c : Obj (SubscriptionWithCache Sp KC)) :
  well_keyed c -> group_keyed (as_group c).
Proof.
  intros [Hnd Hkey]. split; [now rewrite as_group_keys|].
  intros k e Hin. unfold as_group in Hin.
  apply in_map_iff in Hin as ([k0 e0] & [= <- <-] & Hin). cbn. now apply Hkey.
Qed.

Lemma group_keyed_spread (b : SubscriptionGroup Sp) : forall a : SubscriptionGroup Sp,
  group_keyed a -> group_keyed b -> group_keyed (obj_spread a b).
Proof.
  unfold obj_spread. induction b as [|[k e] b IH]; intros a Ha Hb; [exact Ha|].
  cbn [fold_left fst snd]. apply IH.
  - destruct Ha as [Hnd Hkey]. split; [now apply obj_set_NoDup|].
    intros k' e' Hin. apply obj_set_in in Hin as [Hin | [= -> ->]].
    + now apply Hkey.
    + apply (proj2 Hb). now left.
  - destruct Hb as [Hnd Hkey]. split.
    + cbn in Hnd. now inversion Hnd.
    + intros k' e' Hin. apply Hkey. now right.
Qed.

Lemma merged_keyed (old : option (Obj (SubscriptionWithCache Sp KC))) (newSub : SubscriptionGroup Sp) :
  (forall c, old = Some c -> well_keyed c) ->
  group_keyed newSub ->
  group_keyed (merged old newSub).
Proof.
  intros Hold Hnew. destruct old as [c|]; [|exact Hnew].
  cbn [merged]. apply group_keyed_spread; [|exact Hnew].
  apply group_keyed_as_group. now apply Hold.
Qed.

Lemma sendSpec_fold_merged (old : option (Obj (SubscriptionWithCache Sp KC))) (whole : SubscriptionGroup Sp) :
  group_keyed whole ->
  forall rest done,
    (done ++ rest)%list = whole ->
    fold_left (sendSpec_step old) (obj_values rest)
      (map (attach_cache old) done,
       map (fun kv => (fst kv, known (keyCache (snd kv)))) (map (attach_cache old) done),
       map (fun kv =>
              (fst kv,
               VObj (obj_set (toWire (swc_spec (snd kv))) "since"
                       (VNum (maxSeq (keyCache (snd kv)))))))
         (map (attach_cache old) done)) =
    (map (attach_cache old) whole,
     map (fun kv => (fst kv, known (keyCache (snd kv)))) (map (attach_cache old) whole),
     map (fun kv =>
            (fst kv,
             VObj (obj_set (toWire (swc_spec (snd kv))) "since"
                     (VNum (maxSeq (keyCache (snd kv)))))))
       (map (attach_cache old) whole)).
Proof.
  intros [Hnd Hkey]. induction rest as [|[k e] rest IH]; intros done Hsplit.
  - rewrite app_nil_r in Hsplit. subst done. reflexivity.
  - assert (Hin : In (k, e) whole).
    { rewrite <- Hsplit. apply in_or_app. right. now left. }
    assert (Hk : spec_id (sub_spec e) = k) by (symmetry; now apply Hkey).
    assert (Hfresh : ~ In k (map fst done)).
    { rewrite <- Hsplit, map_app in Hnd. cbn [map fst] in Hnd.
      apply NoDup_remove_2 in Hnd. intros Hd. apply Hnd.
      apply in_or_app. now left. }
    assert (Hkeys : forall l : SubscriptionGroup Sp,
              map fst (map (attach_cache old) l) = map fst l).
    { intros l. rewrite map_map. reflexivity. }
    cbn [map obj_values fold_left snd fst].
    unfold sendSpec_step at 2. rewrite Hk.
    rewrite !obj_set_fresh by (rewrite ?map_map; cbn [fst attach_cache]; exact Hfresh).
    specialize (IH (done ++ [(k, e)])%list).
    rewrite !map_app in IH. cbn [map fst snd attach_cache] in IH.
    assert (Hcache :
      match match old with Some c => obj_get c k | None => None end with
      | Some c => keyCache c
      | None => new_KeyCache
      end =
      match old with
      | Some c => match obj_get c k with Some e0 => keyCache e0 | None => new_KeyCache end
      | None => new_KeyCache
      end).
    { destruct old as [c|]; reflexivity. }
    rewrite Hcache. apply IH. rewrite <- app_assoc. exact Hsplit.
Qed.


(** X19.  What a send makes of the groups.  A group of the new subscription gets
    the new spec and label but keeps the key cache the active subscription
    had for it (a new cache when it had none); a group the new subscription
    does not mention stays exactly as it was, spec, label and cache. *)
Theorem sendSpec_merges_groups (newSub : SubscriptionGroup Sp) (st : St) (r : ReadyState) :
  (forall c, curSub st = Some c -> well_keyed c) ->
  group_keyed newSub ->
  ws st = Some r ->
  exists cur',
    curSub (state_of (sendSpec newSub st)) = Some cur' /\
    (forall g e,
       obj_get newSub g = Some e ->
       obj_get cur' g =
       Some {| swc_spec := sub_spec e; swc_id := sub_id e;
               keyCache := match cache_of g st with
                           | Some kc => kc
                           | None => new_KeyCache
                           end |}) /\
    (forall g,
       obj_get newSub g = None ->
       obj_get cur' g =
       match curSub st with Some c => obj_get c g | None => None end).
Proof.
  intros Hold Hnew Hws.
  assert (Hsend : curSub (state_of (sendSpec newSub st)) = Some (adopted (curSub st) newSub)).
  { unfold sendSpec.
    change (match curSub st with
            | Some c => obj_spread (as_group c) newSub
            | None => newSub
            end) with (merged (curSub st) newSub).
    pose proof (@sendSpec_fold_merged (curSub st) (merged (curSub st) newSub)
                  (@merged_keyed (curSub st) newSub Hold Hnew)
                  (merged (curSub st) newSub) [] eq_refl) as Hf.
    cbn [map] in Hf. rewrite Hf.
    cbn [ws set_curSub set_numSyncs]. rewrite Hws. reflexivity. }
  exists (adopted (curSub st) newSub). split; [exact Hsend|].
  assert (Hwhole : forall g,
    obj_get (merged (curSub st) newSub) g =
    match obj_get newSub g with
    | Some e => Some e
    | None => match curSub st with
              | Some c => option_map forget_cache (obj_get c g)
              | None => None
              end
    end).
  { intros g. unfold merged. destruct (curSub st) as [c|].
    - rewrite obj_get_spread, obj_get_rev_nodup by apply Hnew.
      now rewrite obj_get_as_group.
    - now destruct (obj_get newSub g). }
  unfold adopted, cache_of. split.
  - intros g e Hg. rewrite obj_get_attach, Hwhole, Hg. cbn [option_map attach_cache fst snd].
    destruct (curSub st) as [c|]; [|reflexivity].
    destruct (obj_get c g); reflexivity.
  - intros g Hg. rewrite obj_get_attach, Hwhole, Hg.
    destruct (curSub st) as [c|]; [|reflexivity].
    destruct (obj_get c g) as [e0|] eqn:He0; [|reflexivity].
    cbn [option_map attach_cache forget_cache fst snd sub_spec sub_id].
    rewrite He0. now destruct e0.
Qed.

(** ** One field, one key cache *)

(** X6.  A field of a delta message changes the key cache of one group at most:
    the group its name stands for.  The key caches of all other groups are
    what they were. *)
Theorem dispatchField_touches_one_cache (msg : Obj StreamContent)
    (k : string) (v : StreamContent) (st : St) (g : string) :
  g <> target_group StreamEntityMap k ->
  cache_of g (state_of (dispatchField StreamEntityMap msg (k, v) st)) = cache_of g st.
Proof.
  intros Hne.
  destruct (dispatchField_cases msg (k, v) st) as [[_ ->] | [_ [m ->]]];
    [reflexivity|].
  unfold state_of. cbn [fst]. apply cache_of_with_keyCache_other. congruence.
Qed.

End Properties.

(** * The properties on the scenarios *)

Import Model Scenario.

(** A delta that arrives while sync "1" is sent and not yet started is
    dropped. *)
Lemma C1_witness :
  processMsg entityMap [("trials", VObj [("id", VNum 3); ("seq", VNum 10)])] sent1 =
  (sent1, [], Normal).
Proof. apply (C1_stale_update_discarded entityMap); reflexivity. Defined.

(** The markers of sync "1" are processed although [syncSent] and
    [syncStarted] differ when they arrive: the start marker puts "1" into
    [syncStarted], which was undefined, and the completion marker puts "1"
    into [syncComplete] and reports the label. *)
Lemma C9_witness :
  strict_eq (syncSent sent1) (syncStarted sent1) = false /\
  syncStarted sent1 = VUndefined /\
  syncComplete sent1 = VUndefined /\
  syncStarted (state_of (processMsg entityMap (startM "1") sent1)) = VStr "1" /\
  effects_of (processMsg entityMap (startM "1") sent1) = [] /\
  syncComplete (state_of (processMsg entityMap (doneM "1") sent1)) = VStr "1" /\
  effects_of (processMsg entityMap (doneM "1") sent1) = [Loaded ["a"]].
Proof.
  destruct (C9_marker_never_discarded entityMap (startM "1") sent1 eq_refl)
    as (_ & Hstart & _).
  destruct (C9_marker_never_discarded entityMap (doneM "1") sent1 eq_refl)
    as (_ & _ & Hdone).
  destruct (Hstart eq_refl) as (H1 & H2 & _).
  destruct (Hdone eq_refl) as (H3 & H4 & _).
  split; [reflexivity|]. split; [reflexivity|]. split; [reflexivity|].
  split; [exact H1|]. split; [exact H2|]. split; [exact H3 | exact H4].
Defined.

(** A message that carries a [sync_id] field holding the empty string, or
    0, is no marker.  While sync "1" is unanswered it is dropped by the
    discard rule like any delta: nothing is recorded in [syncStarted] or
    [syncComplete] and the loaded callback is not invoked. *)
Lemma C9_counterexample :
  let emptyStart := [("sync_id", VStr ""); ("complete", VBool false)] in
  let zeroDone := [("sync_id", VNum 0); ("complete", VBool true)] in
  obj_get emptyStart "sync_id" = Some (VStr "") /\
  obj_get zeroDone "sync_id" = Some (VNum 0) /\
  strict_eq (syncSent sent1) (syncStarted sent1) = false /\
  processMsg entityMap emptyStart sent1 = (sent1, [], Normal) /\
  syncStarted (state_of (processMsg entityMap emptyStart sent1)) = VUndefined /\
  processMsg entityMap zeroDone sent1 = (sent1, [], Normal) /\
  syncComplete (state_of (processMsg entityMap zeroDone sent1)) = VUndefined.
Proof. vm_compute. repeat split. Qed.

(** Two entities and one deletion in one message: two upserts, one delete. *)
Lemma C10_witness :
  let msg := [("trials", VObj [("id", VNum 3); ("seq", VNum 10)]);
              ("trials_deleted", VStr "8");
              ("experiment", VObj [("id", VNum 1); ("seq", VNum 11)])] in
  let r := processMsg entityMap msg active1 in
  outcome_of r = Normal /\
  effects_of r = [Upsert msg; Delete "trials" [8]%Z; Upsert msg] /\
  count is_upsert (effects_of r) = 2 /\
  (forall e, In e (effects_of r) -> is_upsert e = true -> e = Upsert msg) /\
  count is_delete (effects_of r) = 1.
Proof.
  intros msg.
  exact (C10_one_upsert_per_field entityMap msg active1 eq_refl eq_refl eq_refl eq_refl).
Defined.

(** A trial that is [null] while [trials] is subscribed: the message has
    one field without the deleted marker, and the upsert callback is not
    invoked, because reading [val.id] throws.  A message with a [length]
    field of 2 has two fields without the marker and the upsert callback is
    not invoked either: lodash iterates it as an array and [k.includes]
    throws on the index 0. *)
Lemma C10_counterexample :
  let nullM := [("trials", VNull)] in
  let lengthM := [("length", VNum 2);
                  ("trials", VObj [("id", VNum 3); ("seq", VNum 10)])] in
  is_marker nullM = false /\ is_marker lengthM = false /\
  strict_eq (syncSent active1) (syncStarted active1) = true /\
  List.length (filter (fun kv => negb (marked (fst kv))) nullM) = 1 /\
  count is_upsert (effects_of (processMsg entityMap nullM active1)) = 0 /\
  processMsg entityMap nullM active1 = (active1, [], Thrown TypeError) /\
  List.length (filter (fun kv => negb (marked (fst kv))) lengthM) = 2 /\
  count is_upsert (effects_of (processMsg entityMap lengthM active1)) = 0 /\
  processMsg entityMap lengthM active1 = (active1, [], Thrown TypeError).
Proof. vm_compute. repeat split. Qed.

(** The completion marker of sync "1" fires the loaded callback once; a
    queue with one completion marker fires it once. *)
Lemma C2_witness :
  filter is_loaded (effects_of (processMsg entityMap (doneM "1") sent1)) =
    [Loaded ["a"]] /\
  count is_loaded
    (effects_of (processPendingLoop entityMap
       (map VObj
          [startM "1"; doneM "1"; [("trials", VObj [("id", VNum 3); ("seq", VNum 10)])]])
       sent1)) = 1.
Proof.
  destruct (C2_loaded_once_per_complete_marker entityMap (doneM "1") sent1 eq_refl)
    as [Hone Hqueue].
  split; [exact Hone|].
  apply Hqueue. reflexivity.
Defined.

(** A marker that carries an identifier that was never sent fires the
    loaded callback, and fires it again when it is repeated: one
    transmission, sync "1", and two invocations. *)
Lemma C2_counterexample :
  let r := run [(1, EvSubscribe trialsA (Some "a")); (2, EvOpen);
                (3, EvMessage (VObj (doneM "99"))); (4, EvMessage (VObj (doneM "99")))]%Z fresh in
  count is_sent (snd r) = 1 /\
  syncSent (fst r) = VStr "1" /\
  filter is_loaded (snd r) = [Loaded ["a"]; Loaded ["a"]].
Proof. vm_compute. repeat split. Qed.

(** Sync "1" sent, started and completed, in that order: when
    [syncComplete] holds "1", [syncStarted] held it one state earlier. *)
Lemma C3_witness :
  let steps := [StepSend [("trials", {| sub_spec := trialsA; sub_id := Some "a" |})];
                StepMsg (startM "1"); StepMsg (doneM "1")] in
  exists j stj,
    j < 3 /\
    nth_error (history entityMap steps opened0) j = Some stj /\
    syncStarted stj = VStr "1".
Proof.
  intros steps.
  assert (Hord : markers_ordered steps).
  { intros i msg Hn Hc.
    destruct i as [|[|[|i]]]; cbn in Hn.
    - discriminate Hn.
    - injection Hn as <-. discriminate Hc.
    - injection Hn as <-. exists 1, (startM "1").
      split; [apply le_n|]. repeat split.
    - destruct i; discriminate Hn. }
  refine (C3_started_before_complete entityMap (steps := steps) opened0 3
            eq_refl Hord eq_refl _).
  discriminate.
Defined.

(** The completion marker of sync "1" arrives without a start marker:
    [syncComplete] holds "1" and [syncStarted] never did. *)
Lemma C3_counterexample :
  let h := history entityMap
             [StepSend [("trials", {| sub_spec := trialsA; sub_id := Some "a" |})];
              StepMsg (doneM "1")] opened0 in
  (exists st, nth_error h 2 = Some st /\ syncSent st = VStr "1" /\
              syncComplete st = VStr "1") /\
  Forall (fun st => syncStarted st <> VStr "1") h.
Proof.
  vm_compute. split.
  - eexists. repeat split.
  - repeat constructor; discriminate.
Qed.

(** Subscribing again to what is active and caught up sends nothing and
    reports the label. *)
Lemma C5_witness :
  subscribe entityMap trialsA (Some "again") 5 active1 =
    (set_subs [] active1, [Loaded ["again"]], Normal) /\
  count is_sent (effects_of (subscribe entityMap trialsA (Some "again") 5 active1)) = 0.
Proof.
  refine (C5_idempotent_resubscription entityMap trialsA (label := "again") 5 active1
            (cur := [("trials",
                      {| swc_spec := trialsA; swc_id := Some "a";
                         keyCache := new_KeyCache |})])
            (active := {| swc_spec := trialsA; swc_id := Some "a";
                          keyCache := new_KeyCache |})
            eq_refl eq_refl eq_refl eq_refl eq_refl eq_refl eq_refl eq_refl eq_refl _ _).
  - intros g [].
  - discriminate.
Defined.

(** The deletion of the trials 3 and 4 and the upsert of trial 3 under the
    active, complete sync "7". *)
Lemma C6_witness :
  let deleteM := [("trials_deleted", VStr "3,4")] in
  let upsertM := [("trials", VObj [("id", VNum 3); ("seq", VNum 10)])] in
  dispatchField entityMap deleteM ("trials_deleted", VStr "3,4") active7 =
    (with_keyCache "trials" (delete_msg [3; 4]%Z) active7,
     [Delete "trials" [3; 4]%Z], Normal) /\
  cache_of "trials" (with_keyCache "trials" (delete_msg [3; 4]%Z) active7) =
    Some {| kc_keys := []; kc_maxSeq := 10 |} /\
  In (Delete "trials" [3; 4]%Z) (effects_of (processMsg entityMap deleteM active7)) /\
  processMsg entityMap deleteM active7 =
    (with_keyCache "trials" (delete_msg [3; 4]%Z) active7,
     [Delete "trials" [3; 4]%Z], Normal) /\
  processMsg entityMap upsertM active7 =
    (with_keyCache "trials" (upsert [VNum 3] (VNum 10)) active7, [Upsert upsertM], Normal) /\
  option_map maxSeq (cache_of "trials" (state_of (processMsg entityMap upsertM active7)))
    = Some 10%Z.
Proof.
  intros deleteM upsertM.
  destruct (C6_delete_upsert_routing entityMap "trials" (VStr "3,4") deleteM active7
              eq_refl eq_refl) as (Hfield & Hcache & Hin & Hdel & Hup).
  destruct (Hup eq_refl) as [Hupsert Hmax].
  split; [exact (Hfield eq_refl)|].
  split; [exact Hcache|].
  split; [apply Hin; [reflexivity | reflexivity | reflexivity | left; reflexivity]|].
  split; [exact (Hdel eq_refl)|].
  split; [exact Hupsert|].
  apply (Hmax (fun ids q kc => eq_refl) {| kc_keys := [3; 4]%Z; kc_maxSeq := 10 |} eq_refl).
  discriminate.
Defined.

(** The message of the spec's example carries a [sync_id], so the
    dispatcher takes it for a marker: no delete callback, and the trials 3
    and 4 stay in the key cache.  Without the [sync_id], the delete
    callback is not reached either when the group is one that the active
    subscription only inherits ([constructor]), when a [null] trial comes
    first in the message, or when the message has a [length] of 1: each
    time a TypeError ends the dispatch before the delete callback. *)
Lemma C6_counterexample :
  let msg := [("trials_deleted", VStr "3,4"); ("sync_id", VStr "7")] in
  let r := processMsg entityMap msg active7 in
  let aborted (m : Obj StreamContent) :=
    processMsg entityMap m active7 = (active7, [], Thrown TypeError) in
  decode_keys (VStr "3,4") = [3; 4]%Z /\
  syncSent active7 = VStr "7" /\ syncStarted active7 = VStr "7" /\
  syncComplete active7 = VStr "7" /\
  effects_of r = [] /\
  ~ In (Delete "trials" [3; 4]%Z) (effects_of r) /\
  option_map kc_keys (cache_of "trials" (state_of r)) = Some [3; 4]%Z /\
  aborted [("constructor_deleted", VStr "3,4")] /\
  aborted [("trials", VNull); ("trials_deleted", VStr "3,4")] /\
  aborted [("length", VNum 1); ("trials_deleted", VStr "3,4")].
Proof.
  vm_compute. repeat split. intros [].
Qed.

(** A group whose name ends in a character of the marker loses more than
    the marker: the deletion in [model] is reported for [mo]. *)
Example trimEnd_overtrims :
  effects_of (processMsg entityMap [("model_deleted", VStr "3,4")] active7) =
  [Delete "mo" [3; 4]%Z].
Proof. reflexivity. Qed.

(** Three disconnects in a row, then the fourth waits four seconds; nine in
    a row, then the tenth throws. *)
Lemma C7_witness :
  retries fresh = 0 /\
  effects_of (onclose 40 (state_of (disconnects entityMap [10; 20; 30]%Z fresh))) =
    [SetTimeout 4000] /\
  outcome_of (onclose 100 (state_of
     (disconnects entityMap [10; 20; 30; 40; 50; 60; 70; 80; 90]%Z fresh))) =
    Thrown CannotReconnect /\
  effects_of (onclose 100 (state_of
     (disconnects entityMap [10; 20; 30; 40; 50; 60; 70; 80; 90]%Z fresh))) = [].
Proof.
  split; [reflexivity|]. split.
  - exact (proj1 (proj2 (proj1
      (C7_backoff_table_then_fatal entityMap [10; 20; 30]%Z 40 fresh eq_refl) 4%Z eq_refl))).
  - destruct (proj2
      (C7_backoff_table_then_fatal entityMap
         [10; 20; 30; 40; 50; 60; 70; 80; 90]%Z 100 fresh eq_refl) eq_refl)
      as (_ & He & Ho).
    split; [exact Ho | exact He].
Defined.

(** C4.  Sync "1" is complete; the owner subscribes to [trialsB], which is
    sent as sync "2"; the socket closes before any marker of sync "2"
    arrives, and a new socket opens.  The pass that follows sends nothing:
    the markers of sync "1" are still equal, so the active subscription,
    now [trialsB], is not taken for unfinished. *)
Theorem C4_unanswered_sync_not_resent :
  let before := fst (run [(5, EvSubscribe trialsB (Some "b"))]%Z active1) in
  syncSent before = VStr "2" /\
  ws dropped2 = Some CONNECTING /\
  option_map (map (fun kv => swc_spec (snd kv))) (curSub dropped2) = Some [trialsB] /\
  syncSent dropped2 = VUndefined /\
  syncStarted dropped2 = VStr "1" /\
  syncComplete dropped2 = VStr "1" /\
  subs dropped2 = [] /\
  effects_of (handle entityMap EvOpen 8 dropped2) = [] /\
  outcome_of (handle entityMap EvOpen 8 dropped2) = Normal.
Proof. vm_compute. repeat split. Qed.

(** * The further properties on the scenarios *)

(** A [null] message between the two markers of sync "1": the start marker
    is processed, the [null] ends the pass, and the completion marker stays
    queued. *)
Example processPending_stops_at_falsy :
  processPending entityMap
    (set_pendingMsg [VObj (startM "1"); VNull; VObj (doneM "1")] sent1) =
  (set_pendingMsg [VObj (doneM "1")] (set_syncStarted (VStr "1") sent1), [], Normal).
Proof. vm_compute. reflexivity. Qed.

(** A string between them, once sync "1" has started: [forEach] visits its
    characters by index, the pass throws and the completion marker stays
    queued. *)
Example processPending_stops_at_string :
  processPending entityMap
    (set_pendingMsg [VObj (startM "1"); VStr "ping"; VObj (doneM "1")] sent1) =
  (set_pendingMsg [VObj (doneM "1")] (set_syncStarted (VStr "1") sent1), [],
   Thrown TypeError).
Proof. vm_compute. reflexivity. Qed.

(** A deletion, then a [null] trial while [trials] is active: the deletion
    is reported, then the message is abandoned.  The same holds when the
    second field is the deletion of a group named [constructor], which the
    active subscription inherits and does not hold. *)
Lemma processMsg_throwing_field_aborts_witness :
  let msg := [("trials_deleted", VStr "8"); ("trials", VNull);
              ("experiment", VObj [("id", VNum 1); ("seq", VNum 11)])] in
  let msg' := [("trials_deleted", VStr "8"); ("constructor_deleted", VStr "1")] in
  effects_of (processMsg entityMap msg caught_up7) = [Delete "trials" [8]%Z] /\
  outcome_of (processMsg entityMap msg caught_up7) = Thrown TypeError /\
  effects_of (processMsg entityMap msg' caught_up7) = [Delete "trials" [8]%Z] /\
  outcome_of (processMsg entityMap msg' caught_up7) = Thrown TypeError.
Proof.
  intros msg msg'.
  pose proof (proj2 (proj2 (processMsg_throwing_field_aborts entityMap msg caught_up7
                              eq_refl eq_refl))
                eq_refl
                [("trials_deleted", VStr "8")] ("trials", VNull)
                [("experiment", VObj [("id", VNum 1); ("seq", VNum 11)])]
                eq_refl eq_refl eq_refl) as H.
  pose proof (proj2 (proj2 (processMsg_throwing_field_aborts entityMap msg' caught_up7
                              eq_refl eq_refl))
                eq_refl
                [("trials_deleted", VStr "8")] ("constructor_deleted", VStr "1") []
                eq_refl eq_refl eq_refl) as H'.
  rewrite H, H'. repeat split.
Defined.

(** A name with the marker in the middle is a deletion: the trimmed name
    and the decoded value go to the delete callback. *)
Lemma dispatchField_deletion_iff_name_contains_witness :
  let k := "trials_deleted_at" in
  let r := dispatchField entityMap [(k, VStr "8")] (k, VStr "8") caught_up7 in
  outcome_of r = Normal /\
  forall e, In e (effects_of r) -> e = Delete "trials_deleted_a" [8]%Z.
Proof.
  intros k r. split; [reflexivity|].
  exact (proj1 (dispatchField_deletion_iff_name_contains entityMap
                  [(k, VStr "8")] k (VStr "8") caught_up7)
           (ex_intro _ "trials" (ex_intro _ "_at" eq_refl))).
Defined.

Lemma onDelete_group_of_field_witness :
  ends_in "trials" "_deleted" = false /\
  exists k v,
    In (k, v) [("trials_deleted", VStr "3,4")] /\ marked k = true /\
    "trials" = trimEnd k "_deleted" /\ String.prefix "trials" k = true /\
    [3; 4]%Z = decode_keys v.
Proof.
  exact (onDelete_group_of_field entityMap [("trials_deleted", VStr "3,4")] caught_up7
           "trials" [3; 4]%Z (or_introl eq_refl)).
Defined.

(** After [close()]: a subscription, a message, a close of the socket, the
    timer and an open lead to a timer and a [ws.close()], nothing else. *)
Lemma closed_by_client_is_final_witness :
  let r := runEvents entityMap
             [(6, EvSubscribe trialsB (Some "b")); (7, EvMessage (VObj (doneM "1")));
              (8, EvClose); (9, EvTimer); (10, EvOpen)]%Z closed1 in
  closedByClient (fst r) = true /\
  Forall (fun e => e = WsClose \/ exists ms, e = SetTimeout ms) (snd r).
Proof.
  exact (closed_by_client_is_final entityMap
           [(6, EvSubscribe trialsB (Some "b")); (7, EvMessage (VObj (doneM "1")));
            (8, EvClose); (9, EvTimer); (10, EvOpen)]%Z closed1 eq_refl).
Defined.

(** The third disconnect in a row, at 30 ms, waits two seconds: a pass at
    1000 ms does nothing, the pass at 2030 ms connects. *)
Lemma reconnect_waits_for_backoff_witness :
  let st' := state_of (onclose 30 twice_dropped) in
  advance entityMap 1000 st' = (st', [], Normal) /\
  advance entityMap 2030 st' = (set_ws (Some CONNECTING) st', [Connect], Normal).
Proof.
  intros st'.
  destruct (reconnect_waits_for_backoff entityMap 30 twice_dropped (b := 2) eq_refl)
    as [Hwait Hgo].
  split.
  - apply Hwait. reflexivity.
  - apply (Hgo eq_refl). discriminate.
Defined.



(** Sync "1" is in flight: after its start marker the delta is dispatched,
    after the start marker of a sync "9" it is dropped. *)
Lemma start_marker_opens_window_witness :
  let delta := [("trials", VObj [("id", VNum 3); ("seq", VNum 10)])] in
  effects_of (processPendingLoop entityMap [VObj (startM "1"); VObj delta] sent1) =
    [Upsert delta] /\
  effects_of (processPendingLoop entityMap [VObj (startM "9"); VObj delta] sent1) = [].
Proof.
  intros delta. split.
  - rewrite (start_marker_opens_window entityMap (startM "1") delta sent1 eq_refl eq_refl).
    reflexivity.
  - rewrite (start_marker_opens_window entityMap (startM "9") delta sent1 eq_refl eq_refl).
    reflexivity.
Defined.

Lemma loaded_labels_never_empty_witness :
  isLoaded sent1 = true /\ ~ In "" ["a"].
Proof.
  apply (loaded_labels_never_empty entityMap (EvMessage (VObj (doneM "1"))) 3 sent1 ["a"]).
  left. reflexivity.
Defined.

(** Sync "1" was never answered; on the new socket it goes out again as
    sync "2". *)
Lemma reconnect_resends_unfinished_witness :
  let cur := [("trials",
               {| swc_spec := trialsA; swc_id := Some "a"; keyCache := new_KeyCache |})] in
  let r := onopen entityMap 5 dropped1 in
  effects_of r = [Sent (payload_of cur "2")] /\
  outcome_of r = Normal /\
  curSub (state_of r) = Some cur /\
  subs (state_of r) = [] /\
  syncSent (state_of r) = VStr "2".
Proof.
  intros cur.
  refine (reconnect_resends_unfinished entityMap 5 dropped1 (cur := cur)
            eq_refl eq_refl eq_refl _ eq_refl (or_introl eq_refl)).
  split.
  - repeat constructor. intros [].
  - intros k e [H | []]. injection H as <- <-. reflexivity.
Defined.

(** Sync "1" is complete when the socket is lost: the new socket stays
    silent. *)
Lemma reconnect_after_completed_sync_sends_nothing_witness :
  let r := runEvents entityMap [(6, EvClose); (7, EvTimer); (8, EvOpen)]%Z active1 in
  snd r = [SetTimeout 0; Connect] /\
  ws (fst r) = Some OPEN /\
  curSub (fst r) = curSub active1 /\
  syncSent (fst r) = VUndefined.
Proof.
  refine (reconnect_after_completed_sync_sends_nothing entityMap 6 (t2 := 7) 8 active1
            (b := 0) eq_refl eq_refl eq_refl eq_refl eq_refl eq_refl eq_refl _).
  discriminate.
Defined.


(** [experiments] is new and starts with a new key cache; [trials], which
    the new subscription does not mention, keeps its spec and its cache. *)
Lemma sendSpec_merges_groups_witness :
  let newSub := [("experiments", {| sub_spec := experimentsC; sub_id := Some "c" |})] in
  exists cur',
    curSub (state_of (sendSpec newSub caught_up7)) = Some cur' /\
    obj_get cur' "experiments" =
      Some {| swc_spec := experimentsC; swc_id := Some "c"; keyCache := new_KeyCache |} /\
    obj_get cur' "trials" =
      Some {| swc_spec := {| is_group := "trials"; is_ids := [7]%Z |}; swc_id := None;
              keyCache := {| kc_keys := [3; 4]%Z; kc_maxSeq := 10 |} |}.
Proof.
  intros newSub.
  assert (Hold : forall c, curSub caught_up7 = Some c -> well_keyed c).
  { intros c [= <-]. split.
    - repeat constructor. intros [].
    - intros k e [H | []]. injection H as <- <-. reflexivity. }
  assert (Hnew : group_keyed newSub).
  { split.
    - repeat constructor. intros [].
    - intros k e [H | []]. injection H as <- <-. reflexivity. }
  destruct (sendSpec_merges_groups (newSub := newSub) caught_up7 (r := OPEN) Hold Hnew eq_refl)
    as (cur' & Hcur & Hin & Hout).
  exists cur'. split; [exact Hcur|]. split.
  - exact (Hin "experiments" _ eq_refl).
  - exact (Hout "trials" eq_refl).
Defined.

(** A queue of three after sync "1" completed: the first repeats the active
    spec and is reported, the second differs and is sent, the third stays
    queued. *)
Lemma drainSubs_stops_at_first_witness :
  let again := [("trials", {| sub_spec := trialsA; sub_id := Some "x" |})] in
  let other := [("trials", {| sub_spec := trialsB; sub_id := Some "b" |})] in
  let later := [("trials", {| sub_spec := trialsA; sub_id := Some "y" |})] in
  let r := drainSubs [again; other; later] active1 in
  effects_of r = (Loaded ["x"] :: effects_of (sendSpec other (set_subs [later] active1)))%list /\
  subs (state_of r) = [later] /\
  syncSent (state_of r) = VStr "2".
Proof.
  intros again other later.
  assert (Hskip : forall g, In g [again] -> shouldSkip g active1 = true).
  { intros g [<- | []]. reflexivity. }
  pose proof (drainSubs_stops_at_first [again] other [later] active1 Hskip eq_refl) as H.
  cbn zeta. split; [exact (f_equal (fun r => effects_of r) H)|].
  split.
  - exact (f_equal (fun r => subs (state_of r)) H).
  - exact (f_equal (fun r => syncSent (state_of r)) H).
Defined.

(** An upserted experiment leaves the key cache of [trials] alone. *)
Lemma dispatchField_touches_one_cache_witness :
  let msg := [("experiment", VObj [("id", VNum 1); ("seq", VNum 11)])] in
  cache_of "trials"
    (state_of (dispatchField entityMap msg
                 ("experiment", VObj [("id", VNum 1); ("seq", VNum 11)]) two_groups)) =
  Some {| kc_keys := [3; 4]%Z; kc_maxSeq := 10 |} /\
  cache_of "experiments"
    (state_of (dispatchField entityMap msg
                 ("experiment", VObj [("id", VNum 1); ("seq", VNum 11)]) two_groups)) =
  Some {| kc_keys := [1]%Z; kc_maxSeq := 11 |}.
Proof.
  intros msg. split; [|reflexivity].
  rewrite (dispatchField_touches_one_cache entityMap msg "experiment"
             (VObj [("id", VNum 1); ("seq", VNum 11)]) two_groups (g := "trials")).
  - reflexivity.
  - discriminate.
Defined.
